(** * WebRunnr core: the session registry and the execution coordinator

    A shallow embedding of [packages/core/src/index.ts].  The class
    [WebRunnrCore] keeps four JavaScript [Map]s; its asynchronous methods
    are driven by what the awaited worker does (messages, runtime faults)
    and by the passing of time (the [setTimeout] timers).  The embedding
    makes that explicit: an asynchronous method is a function that
    consumes a list of stimuli and returns the state in which its promise
    settled (or [Pending] when the stimuli ran out first).

    - Time is a clock in milliseconds, advanced by the stimulus
      [Elapse]; a timer set for [T] ms fires once [T] ms have passed.
    - The stimuli are those of the worker that the method waits for.  The
      listeners that a call registers on a worker, and leaves there, are
      recorded.  What the closures of a handshake do when the worker
      posts a message after the handshake has settled is [late]; an
      execution session is described on a worker on which no listener of
      an earlier execution is left, and the statements about what the
      worker receives and about its listeners say so.
    - A delay of [setTimeout] is a signed 32-bit integer
      ([setTimeout_delay]).
    - Language names are ASCII strings: [toLowerCase] folds the letters
      A to Z only (statements that depend on which spellings are folded
      together say so with [ascii_only]).
    - The caller's event handler returns normally, and the promise of an
      input handler is settled (with an answer or a failure) before the
      next stimulus.
    - [new Worker] succeeds. *)

From Stdlib Require Import String Ascii List Bool Arith NArith Lia.
Import ListNotations.

Local Open Scope string_scope.
Local Open Scope list_scope.

Infix "+++" := String.append (at level 60, right associativity).

(** ** Strings *)

(** [String.prototype.toLowerCase] on ASCII strings: the letters ['A'..'Z']
    are folded, every other ASCII character is left as it is.  A Rocq
    string is a sequence of bytes; the folding of cased letters outside
    ASCII is not part of the embedding, which leaves every byte from 128
    on as it is. *)
Definition lower_ascii (c : ascii) : ascii :=
  let n := nat_of_ascii c in
  if ((65 <=? n)%nat && (n <=? 90)%nat)%bool then ascii_of_nat (n + 32) else c.

Fixpoint toLowerCase (s : string) : string :=
  match s with
  | EmptyString => EmptyString
  | String c s' => String (lower_ascii c) (toLowerCase s')
  end.

(** JavaScript truthiness of a string: only the empty string is falsy. *)
Definition truthy (s : string) : bool :=
  match s with EmptyString => false | _ => true end.

(** [a || b] on strings. *)
Definition or_else (a b : string) : string := if truthy a then a else b.

(** ** JavaScript [Map] with string keys

    A [Map] iterates in insertion order and [set] on a key that is present
    keeps its position, so the embedding is an association list. *)
Module JSMap.
Section Ops.
Context {V : Type}.

Definition t := list (string * V).

Definition empty : t := [].

Fixpoint get (k : string) (m : t) : option V :=
  match m with
  | [] => None
  | (k', v) :: m' => if String.eqb k k' then Some v else get k m'
  end.

Definition has (k : string) (m : t) : bool :=
  match get k m with Some _ => true | None => false end.

Fixpoint set (k : string) (v : V) (m : t) : t :=
  match m with
  | [] => [(k, v)]
  | (k', v') :: m' =>
      if String.eqb k k' then (k, v) :: m' else (k', v') :: set k v m'
  end.

Fixpoint delete (k : string) (m : t) : t :=
  match m with
  | [] => []
  | (k', v') :: m' =>
      if String.eqb k k' then m' else (k', v') :: delete k m'
  end.

Definition clear (m : t) : t := [].

Definition keys (m : t) : list string := map fst m.

Definition values (m : t) : list V := map snd m.
End Ops.
Arguments t : clear implicits.
End JSMap.

(** ** The message protocol *)

(** [ExecutionEvent]: what a worker posts, and what the caller's event
    handler receives. *)
Inductive ExecutionEvent : Type :=
| stdout (data : string)
| stderr (data : string)
| input_request (prompt : string)
| ready
| done
| error (data : string).

(** What the core posts to a worker: [{ code }] and
    [{ type: 'input_response', value }]. *)
Inductive WorkerInput : Type :=
| run_code (code : string)
| input_response (value : string).

Record ExecutionRequest : Type := mkRequest {
  code : string;
  language : string;
  timeout : option N   (* milliseconds *)
}.

Record ExecutionResult : Type := mkResult {
  res_stdout : string;
  res_stderr : string;
  res_success : bool;
  executionTime : option N
}.

(** A promise of an input handler, once settled. *)
Inductive HandlerResult : Type :=
| answers (value : string)
| fails (message : string).

Definition InputHandler : Type := string -> HandlerResult.

Record ExecutorOptions : Type := mkOptions {
  opt_timeout : option N;
  opt_inputHandler : option InputHandler
}.

Definition no_options : ExecutorOptions := mkOptions None None.

(** ** The worker runtime *)

(** A [Worker] object is identified by its handle: its rank among the
    workers constructed so far. *)
Definition Worker : Type := nat.

(** The closures that the core installs on a worker, named after the call
    that created them. *)
Inductive Listener : Type :=
| handshakeHandler (id : nat)
| executionHandler (id : nat).

Definition Listener_eqb (a b : Listener) : bool :=
  match a, b with
  | handshakeHandler i, handshakeHandler j => Nat.eqb i j
  | executionHandler i, executionHandler j => Nat.eqb i j
  | _, _ => false
  end.

Record WorkerObj : Type := mkWorkerObj {
  scriptURL : string;
  messageListeners : list Listener;
  onerror : option Listener;
  terminated : bool;
  inbox : list WorkerInput
}.

(** The environment of the core: every worker constructed so far, the
    number of closures created, [window.prompt] when there is a window,
    and the clock read by [Date.now()] (milliseconds). *)
Record Runtime : Type := mkRuntime {
  pool : list WorkerObj;
  closures : nat;
  windowPrompt : option (string -> option string);
  clock : N
}.

(** ** The class [WebRunnrCore] *)

Record WebRunnrCore : Type := mkCore {
  workers : JSMap.t Worker;
  workerPaths : JSMap.t string;
  workerReady : JSMap.t bool;
  inputHandlers : JSMap.t InputHandler
}.

Definition with_workerPaths (p : JSMap.t string) (c : WebRunnrCore) :=
  mkCore (workers c) p (workerReady c) (inputHandlers c).

Definition with_workers (w : JSMap.t Worker) (c : WebRunnrCore) :=
  mkCore w (workerPaths c) (workerReady c) (inputHandlers c).

Definition with_workerReady (r : JSMap.t bool) (c : WebRunnrCore) :=
  mkCore (workers c) (workerPaths c) r (inputHandlers c).

Definition with_inputHandlers (h : JSMap.t InputHandler) (c : WebRunnrCore) :=
  mkCore (workers c) (workerPaths c) (workerReady c) h.

(** The field initialisers: four empty maps. *)
Definition blank : WebRunnrCore :=
  mkCore JSMap.empty JSMap.empty JSMap.empty JSMap.empty.

Definition setupDefaultExecutors (c : WebRunnrCore) : WebRunnrCore :=
  let p := workerPaths c in
  let p := JSMap.set "python" "./packages/py-executor/dist/index.js" p in
  let p := JSMap.set "javascript" "./packages/js-executor/dist/index.js" p in
  let p := JSMap.set "typescript" "./packages/ts-executor/dist/index.js" p in
  let p := JSMap.set "cpp" "./packages/cpp-executor/dist/index.js" p in
  let p := JSMap.set "java" "./packages/java-executor/dist/index.js" p in
  with_workerPaths p c.

Definition constructor : WebRunnrCore := setupDefaultExecutors blank.

Definition registerExecutor (language workerPath : string)
    (c : WebRunnrCore) : WebRunnrCore :=
  with_workerPaths (JSMap.set (toLowerCase language) workerPath (workerPaths c)) c.

Definition setInputHandler (language : string) (handler : InputHandler)
    (c : WebRunnrCore) : WebRunnrCore :=
  with_inputHandlers
    (JSMap.set (toLowerCase language) handler (inputHandlers c)) c.

Definition isLanguageSupported (language : string) (c : WebRunnrCore) : bool :=
  JSMap.has (toLowerCase language) (workerPaths c).

Definition getSupportedLanguages (c : WebRunnrCore) : list string :=
  JSMap.keys (workerPaths c).

(** ** Effects on the worker runtime *)

Fixpoint update_nth {A : Type} (n : nat) (f : A -> A) (l : list A) : list A :=
  match l, n with
  | [], _ => []
  | x :: l', O => f x :: l'
  | x :: l', S n' => x :: update_nth n' f l'
  end.

Definition on_worker (worker : Worker) (f : WorkerObj -> WorkerObj)
    (rt : Runtime) : Runtime :=
  mkRuntime (update_nth worker f (pool rt)) (closures rt)
            (windowPrompt rt) (clock rt).

Definition lookup_worker (worker : Worker) (rt : Runtime) : option WorkerObj :=
  nth_error (pool rt) worker.

(** [new Worker(workerPath, { type: 'module' })] *)
Definition new_Worker (workerPath : string) (rt : Runtime) : Worker * Runtime :=
  (length (pool rt),
   mkRuntime (pool rt ++ [mkWorkerObj workerPath [] None false []])
             (closures rt) (windowPrompt rt) (clock rt)).

(** [worker.terminate()] *)
Definition worker_terminate (worker : Worker) : Runtime -> Runtime :=
  on_worker worker (fun o =>
    mkWorkerObj (scriptURL o) (messageListeners o) (onerror o) true (inbox o)).

(** [worker.addEventListener('message', l)] *)
Definition addEventListener (worker : Worker) (l : Listener) : Runtime -> Runtime :=
  on_worker worker (fun o =>
    mkWorkerObj (scriptURL o) (messageListeners o ++ [l]) (onerror o)
                (terminated o) (inbox o)).

(** [worker.removeEventListener('message', l)] *)
Definition removeEventListener (worker : Worker) (l : Listener) : Runtime -> Runtime :=
  on_worker worker (fun o =>
    mkWorkerObj (scriptURL o)
                (filter (fun l' => negb (Listener_eqb l l')) (messageListeners o))
                (onerror o) (terminated o) (inbox o)).

(** [worker.onerror = l] *)
Definition set_onerror (worker : Worker) (l : Listener) : Runtime -> Runtime :=
  on_worker worker (fun o =>
    mkWorkerObj (scriptURL o) (messageListeners o) (Some l)
                (terminated o) (inbox o)).

(** [worker.postMessage(m)] *)
Definition postMessage (worker : Worker) (m : WorkerInput) : Runtime -> Runtime :=
  on_worker worker (fun o =>
    mkWorkerObj (scriptURL o) (messageListeners o) (onerror o)
                (terminated o) (inbox o ++ [m])).

(** A closure is created: it gets the next identity. *)
Definition new_closure (rt : Runtime) : nat * Runtime :=
  (closures rt,
   mkRuntime (pool rt) (S (closures rt)) (windowPrompt rt) (clock rt)).

(** Time passes. *)
Definition advance (ms : N) (rt : Runtime) : Runtime :=
  mkRuntime (pool rt) (closures rt) (windowPrompt rt) (clock rt + ms)%N.

(** ** Asynchronous computations

    What an awaited worker does, and the passing of time. *)
Inductive Stimulus : Type :=
| Message (e : ExecutionEvent)   (* the worker posts a message *)
| Fault (message : string)       (* the runtime reports an error on the worker *)
| Elapse (ms : N).               (* [ms] milliseconds pass *)

Inductive Outcome (A : Type) : Type :=
| Resolved (a : A)
| Rejected (message : string)
| Pending.
Arguments Resolved {A} a.
Arguments Rejected {A} message.
Arguments Pending {A}.

(** The state an asynchronous method runs in: the object itself, its
    environment, and the variables captured by the caller's event handler. *)
Record World (H : Type) : Type := mkWorld {
  self : WebRunnrCore;
  env : Runtime;
  caller : H
}.
Arguments mkWorld {H} self env caller.
Arguments self {H} w.
Arguments env {H} w.
Arguments caller {H} w.

Definition Async (H A : Type) : Type :=
  World H -> list Stimulus -> Outcome A * World H * list Stimulus.

Section Monad.
Context {H : Type}.

Definition ret {A} (a : A) : Async H A := fun w tr => (Resolved a, w, tr).

Definition throw {A} (message : string) : Async H A :=
  fun w tr => (Rejected message, w, tr).

Definition bind {A B} (m : Async H A) (k : A -> Async H B) : Async H B :=
  fun w tr =>
    match m w tr with
    | (Resolved a, w', tr') => k a w' tr'
    | (Rejected e, w', tr') => (Rejected e, w', tr')
    | (Pending, w', tr') => (Pending, w', tr')
    end.

(** [try { m } catch (error) { handler error.message }] *)
Definition try_catch {A} (m : Async H A) (handler : string -> Async H A)
    : Async H A :=
  fun w tr =>
    match m w tr with
    | (Rejected e, w', tr') => handler e w' tr'
    | r => r
    end.

Definition gets {A} (f : World H -> A) : Async H A :=
  fun w tr => (Resolved (f w), w, tr).

Definition on_self (f : WebRunnrCore -> WebRunnrCore) : Async H unit :=
  fun w tr => (Resolved tt, mkWorld (f (self w)) (env w) (caller w), tr).

Definition on_env (f : Runtime -> Runtime) : Async H unit :=
  fun w tr => (Resolved tt, mkWorld (self w) (f (env w)) (caller w), tr).

Definition from_env {A} (f : Runtime -> A * Runtime) : Async H A :=
  fun w tr =>
    let (a, rt) := f (env w) in
    (Resolved a, mkWorld (self w) rt (caller w), tr).

(** The caller's event handler is called with [e]. *)
Definition call (eventHandler : ExecutionEvent -> H -> H) (e : ExecutionEvent)
    : Async H unit :=
  fun w tr =>
    (Resolved tt, mkWorld (self w) (env w) (eventHandler e (caller w)), tr).
End Monad.

Notation "x <- m ;; k" := (bind m (fun x => k))
  (at level 61, m at next level, right associativity).
Notation "m ;;; k" := (bind m (fun _ => k))
  (at level 61, right associativity).

Definition tick {H} (ms : N) (w : World H) : World H :=
  mkWorld (self w) (advance ms (env w)) (caller w).

Definition in_env {H} (f : Runtime -> Runtime) (w : World H) : World H :=
  mkWorld (self w) (f (env w)) (caller w).

Definition in_self {H} (f : WebRunnrCore -> WebRunnrCore) (w : World H) : World H :=
  mkWorld (f (self w)) (env w) (caller w).

(** ** The session registry *)

Section Registry.
Context {H : Type}.

(** The promise built by [waitForWorkerReady], from the moment its
    executor has run: [me] is both the message listener and the
    [onerror] closure of this call, [remaining] is what is left of the
    30 second timer. *)
Fixpoint awaitReady (worker : Worker) (language : string) (me : Listener)
    (remaining : N) (tr : list Stimulus) (w : World H)
    : Outcome unit * World H * list Stimulus :=
  match tr with
  | [] => (Pending, w, [])
  | Elapse d :: tr' =>
      if (d <? remaining)%N
      then awaitReady worker language me (remaining - d)%N tr' (tick d w)
      else (* the timer fires: nothing but [reject] *)
        (Rejected ("Worker for " +++ language +++
                   " failed to initialize within timeout"),
         tick remaining w, Elapse (d - remaining)%N :: tr')
  | Message ready :: tr' =>
      (* clearTimeout; removeEventListener; workerReady.set; resolve *)
      let w := in_env (removeEventListener worker me) w in
      let w := in_self (fun c =>
                 with_workerReady (JSMap.set language true (workerReady c)) c) w in
      (Resolved tt, w, tr')
  | Message (error data) :: tr' =>
      let w := in_env (removeEventListener worker me) w in
      (Rejected ("Worker initialization failed: " +++ data), w, tr')
  | Message _ :: tr' =>
      awaitReady worker language me remaining tr' w
  | Fault message :: tr' =>
      let w := in_env (removeEventListener worker me) w in
      (Rejected ("Worker error: " +++ message), w, tr')
  end.

Definition handshake_timeout : N := 30000.

Definition waitForWorkerReady (worker : Worker) (language : string)
    : Async H unit :=
  id <- from_env new_closure ;;
  on_env (addEventListener worker (handshakeHandler id)) ;;;
  on_env (set_onerror worker (handshakeHandler id)) ;;;
  fun w tr =>
    awaitReady worker language (handshakeHandler id) handshake_timeout tr w.

Definition getOrCreateWorker (language : string) : Async H Worker :=
  existingWorker <- gets (fun w => JSMap.get language (workers (self w))) ;;
  isReady <- gets (fun w => JSMap.get language (workerReady (self w))) ;;
  match existingWorker, isReady with
  | Some worker, Some true => ret worker
  | _, _ =>
      (* Terminate existing worker if it exists but isn't ready *)
      match existingWorker with
      | Some worker => on_env (worker_terminate worker)
      | None => ret tt
      end ;;;
      workerPath <- gets (fun w => JSMap.get language (workerPaths (self w))) ;;
      match workerPath with
      | Some path =>
          if truthy path then
            worker <- from_env (new_Worker path) ;;
            on_self (fun c =>
              with_workers (JSMap.set language worker (workers c)) c) ;;;
            on_self (fun c =>
              with_workerReady (JSMap.set language false (workerReady c)) c) ;;;
            waitForWorkerReady worker language ;;;
            ret worker
          else throw ("No executor found for language: " +++ language)
      | None => throw ("No executor found for language: " +++ language)
      end
  end.

Definition terminate (w : World H) : World H :=
  let rt := fold_left (fun rt entry => worker_terminate (snd entry) rt)
                      (workers (self w)) (env w) in
  let c := self w in
  let c := with_workers (JSMap.clear (workers c)) c in
  let c := with_workerReady (JSMap.clear (workerReady c)) c in
  let c := with_inputHandlers (JSMap.clear (inputHandlers c)) c in
  mkWorld c rt (caller w).

Definition terminateLanguageWorker (language : string) (w : World H) : World H :=
  match JSMap.get (toLowerCase language) (workers (self w)) with
  | Some worker =>
      let rt := worker_terminate worker (env w) in
      let c := self w in
      let c := with_workers (JSMap.delete (toLowerCase language) (workers c)) c in
      let c := with_workerReady
                 (JSMap.delete (toLowerCase language) (workerReady c)) c in
      mkWorld c rt (caller w)
  | None => w
  end.
End Registry.

(** ** The closures of a handshake, once it has settled

    [waitForWorkerReady] leaves [worker.onerror] set, and its timeout
    leaves the message listener registered as well.  When the worker
    posts a message, or the runtime reports an error on it, while no call
    is waiting, these closures run; [clearTimeout], [resolve] and
    [reject] have no effect any more. *)
Section Afterwards.
Context {H : Type}.

Definition is_registered (worker : Worker) (l : Listener) (rt : Runtime) : bool :=
  match lookup_worker worker rt with
  | Some obj => existsb (Listener_eqb l) (messageListeners obj)
  | None => false
  end.

(** [messageHandler] of [waitForWorkerReady] *)
Definition handshake_messageHandler (worker : Worker) (language : string)
    (me : Listener) (e : ExecutionEvent) (w : World H) : World H :=
  match e with
  | ready =>
      let w := in_env (removeEventListener worker me) w in
      in_self (fun c =>
        with_workerReady (JSMap.set language true (workerReady c)) c) w
  | error _ => in_env (removeEventListener worker me) w
  | _ => w
  end.

(** [worker.onerror] of [waitForWorkerReady] *)
Definition handshake_onerror (worker : Worker) (me : Listener) (w : World H)
    : World H :=
  in_env (removeEventListener worker me) w.

(** One stimulus on [worker], on which the closures [me] of the handshake
    of [language] are the only ones that may be installed, while no call
    is waiting.  A terminated worker is heard of no more. *)
Definition late (worker : Worker) (language : string) (me : Listener)
    (s : Stimulus) (w : World H) : World H :=
  match s with
  | Elapse d => tick d w
  | Message e =>
      match lookup_worker worker (env w) with
      | Some obj =>
          if terminated obj then w
          else if existsb (Listener_eqb me) (messageListeners obj)
          then handshake_messageHandler worker language me e w
          else w
      | None => w
      end
  | Fault _ =>
      match lookup_worker worker (env w) with
      | Some obj =>
          if terminated obj then w
          else match onerror obj with
               | Some l => if Listener_eqb l me
                           then handshake_onerror worker me w else w
               | None => w
               end
      | None => w
      end
  end.

Definition idle (worker : Worker) (language : string) (me : Listener)
    (tr : list Stimulus) (w : World H) : World H :=
  fold_left (fun w s => late worker language me s w) tr w.
End Afterwards.

(** ** The execution coordinator *)

(** The local variables [stdout], [stderr] and [success] of
    [executeOnWorker] (and of [execute]). *)
Record Output : Type := mkOutput {
  out_stdout : string;
  out_stderr : string;
  out_success : bool
}.

(** [defaultInputHandler]: the browser prompt, when there is one. *)
Definition defaultInputHandler (rt : Runtime) : InputHandler :=
  fun prompt =>
    match windowPrompt rt with
    | Some window_prompt =>
        answers (match window_prompt prompt with
                 | Some value => or_else value ""
                 | None => ""
                 end)
    | None => fails "No input handler available"
    end.

Section Coordinator.
Context {H : Type}.
Variable eventHandler : ExecutionEvent -> H -> H.

(** [cleanup()] of [executeOnWorker] *)
Definition cleanup (worker : Worker) (me : Listener) (w : World H) : World H :=
  in_env (removeEventListener worker me) w.

(** The input request of [messageHandler]: the handler is looked up,
    called, and its answer (or the empty string when it fails) is
    posted to the worker. *)
Definition answer_input (worker : Worker) (prompt : string) (w : World H)
    : World H :=
  let inputHandler :=
    match JSMap.get "python" (inputHandlers (self w)) with
    | Some handler => handler
    | None => defaultInputHandler (env w)
    end in
  match inputHandler prompt with
  | answers userInput => in_env (postMessage worker (input_response userInput)) w
  | fails _ => in_env (postMessage worker (input_response "")) w
  end.

(** The promise built by [executeOnWorker], once its executor has run. *)
Fixpoint awaitExecution (worker : Worker) (me : Listener)
    (executionTimeout : option N) (acc : Output)
    (tr : list Stimulus) (w : World H)
    : Outcome Output * World H * list Stimulus :=
  match tr with
  | [] => (Pending, w, [])
  | Elapse d :: tr' =>
      match executionTimeout with
      | Some remaining =>
          if (d <? remaining)%N
          then awaitExecution worker me (Some (remaining - d)%N) acc tr' (tick d w)
          else (Rejected "Execution timeout",
                tick remaining w, Elapse (d - remaining)%N :: tr')
      | None => awaitExecution worker me None acc tr' (tick d w)
      end
  | Fault message :: tr' =>
      (Rejected ("Worker error during execution: " +++ message),
       cleanup worker me w, tr')
  | Message e :: tr' =>
      (* Forward event to handler *)
      let w := mkWorld (self w) (env w) (eventHandler e (caller w)) in
      match e with
      | stdout data =>
          awaitExecution worker me executionTimeout
            (mkOutput (out_stdout acc +++ data) (out_stderr acc) (out_success acc))
            tr' w
      | stderr data =>
          awaitExecution worker me executionTimeout
            (mkOutput (out_stdout acc) (out_stderr acc +++ data) (out_success acc))
            tr' w
      | done =>
          (Resolved (mkOutput (out_stdout acc) (out_stderr acc) true),
           cleanup worker me w, tr')
      | error data =>
          (Resolved (mkOutput (out_stdout acc) (out_stderr acc +++ data) false),
           cleanup worker me w, tr')
      | input_request prompt =>
          awaitExecution worker me executionTimeout acc tr'
            (answer_input worker prompt w)
      | ready =>
          awaitExecution worker me executionTimeout acc tr' w
      end
  end.

(** The delay that [setTimeout] keeps for a whole number of milliseconds:
    the runtime stores it as a signed 32-bit integer, so a delay of 2^31 ms
    or more wraps around modulo 2^32, and a delay that comes out negative
    counts as 0. *)
Definition setTimeout_delay (ms : N) : N :=
  let wrapped := (ms mod 4294967296)%N in
  if (wrapped <? 2147483648)%N then wrapped else 0%N.

(** [timeout ? setTimeout(..., timeout) : null] *)
Definition start_timer (timeout : option N) : option N :=
  match timeout with
  | Some ms => if (ms =? 0)%N then None else Some (setTimeout_delay ms)
  | None => None
  end.

Definition executeOnWorker (worker : Worker) (code : string)
    (timeout : option N) : Async H Output :=
  id <- from_env new_closure ;;
  on_env (addEventListener worker (executionHandler id)) ;;;
  on_env (set_onerror worker (executionHandler id)) ;;;
  (* Start execution *)
  on_env (postMessage worker (run_code code)) ;;;
  fun w tr =>
    awaitExecution worker (executionHandler id) (start_timer timeout)
                   (mkOutput "" "" false) tr w.

Definition executeWithEvents (request : ExecutionRequest)
    (options : ExecutorOptions) : Async H ExecutionResult :=
  let language := toLowerCase (language request) in
  startTime <- gets (fun w => clock (env w)) ;;
  out <- try_catch
    (worker <- getOrCreateWorker language ;;
     (* Set up input handler if provided *)
     match opt_inputHandler options with
     | Some handler =>
         on_self (fun c =>
           with_inputHandlers (JSMap.set language handler (inputHandlers c)) c)
     | None => ret tt
     end ;;;
     (* Execute the code and collect results *)
     result <- executeOnWorker worker (code request) (opt_timeout options) ;;
     ret (mkOutput (out_stdout result) (out_stderr result) (out_success result)))
    (fun message =>
       call eventHandler (error message) ;;;
       ret (mkOutput "" ("Execution failed: " +++ message) false)) ;;
  now <- gets (fun w => clock (env w)) ;;
  ret (mkResult (out_stdout out) (out_stderr out) (out_success out)
                (Some (now - startTime)%N)).
End Coordinator.

(** The event handler that [execute] passes to [executeWithEvents]; its
    captured variables are the locals of [execute]. *)
Definition execute_handler (event : ExecutionEvent) (local : Output) : Output :=
  match event with
  | stdout data =>
      mkOutput (out_stdout local +++ data) (out_stderr local) (out_success local)
  | stderr data =>
      mkOutput (out_stdout local) (out_stderr local +++ data) (out_success local)
  | done => mkOutput (out_stdout local) (out_stderr local) true
  | error data =>
      mkOutput (out_stdout local) (out_stderr local +++ data) (out_success local)
  | _ => local
  end.

Definition execute {H} (request : ExecutionRequest) : Async H ExecutionResult :=
  fun w tr =>
    let inner := mkWorld (self w) (env w) (mkOutput "" "" false) in
    match executeWithEvents execute_handler request no_options inner tr with
    | (o, w', tr') =>
        let local := caller w' in
        (match o with
         | Resolved result =>
             Resolved (mkResult (or_else (res_stdout result) (out_stdout local))
                                (or_else (res_stderr result) (out_stderr local))
                                (res_success result)
                                (executionTime result))
         | Rejected e => Rejected e
         | Pending => Pending
         end,
         mkWorld (self w') (env w') (caller w), tr')
    end.

(** * The vocabulary of the statements *)

(** ** Case folding *)

(** Two characters that are the same letter, whatever their case.  This is
    stated without [lower_ascii], so that it can serve as its
    specification. *)
Inductive same_letter : ascii -> ascii -> Prop :=
| same_char c : same_letter c c
| upper_lower n : 97 <= n <= 122 ->
    same_letter (ascii_of_nat (n - 32)) (ascii_of_nat n)
| lower_upper n : 97 <= n <= 122 ->
    same_letter (ascii_of_nat n) (ascii_of_nat (n - 32)).

Inductive equal_ignoring_case : string -> string -> Prop :=
| eic_empty : equal_ignoring_case "" ""
| eic_cons c d s t :
    same_letter c d -> equal_ignoring_case s t ->
    equal_ignoring_case (String c s) (String d t).

Definition default_languages : list string :=
  ["python"; "javascript"; "typescript"; "cpp"; "java"].

(** ** Workers and sessions *)

(** Whether the runtime has been told to terminate [worker]. *)
Definition is_terminated (worker : Worker) (rt : Runtime) : Prop :=
  exists o, lookup_worker worker rt = Some o /\ terminated o = true.

Definition is_live (worker : Worker) (rt : Runtime) : Prop :=
  exists o, lookup_worker worker rt = Some o /\ terminated o = false.

(** The session of [language] is ready:
    [existingWorker && this.workerReady.get(language)] is truthy. *)
Definition session_ready (language : string) (c : WebRunnrCore) : bool :=
  match JSMap.get language (workers c), JSMap.get language (workerReady c) with
  | Some _, Some true => true
  | _, _ => false
  end.

(** The session of [language] is in a terminated state: there is none, or
    its worker has been terminated. *)
Definition session_terminated {H} (language : string) (w : World H) : Prop :=
  match JSMap.get language (workers (self w)) with
  | Some worker => is_terminated worker (env w)
  | None => True
  end.

(** Every session maps its language to a worker of the pool, and the
    language has a usable entry point.  This holds of a fresh instance
    and is kept by every method, provided that executors are registered
    with non-empty paths (module [Invariant]). *)
Definition well_formed {H} (w : World H) : Prop :=
  forall language worker,
    In (language, worker) (workers (self w)) ->
    worker < length (pool (env w)) /\
    exists path,
      JSMap.get language (workerPaths (self w)) = Some path /\ truthy path = true.

(** What an execution session leaves untouched. *)
Definition same_sessions {H} (w w' : World H) : Prop :=
  self w' = self w /\ length (pool (env w')) = length (pool (env w)).

(** ** The readiness handshake *)

(** How a handshake can end. *)
Inductive Handshake : Type :=
| hs_pending
| hs_ready
| hs_error (data : string)
| hs_fault (message : string)
| hs_timeout.

Definition handshake_outcome (language : string) (h : Handshake) : Outcome unit :=
  match h with
  | hs_pending => Pending
  | hs_ready => Resolved tt
  | hs_error data => Rejected ("Worker initialization failed: " +++ data)
  | hs_fault message => Rejected ("Worker error: " +++ message)
  | hs_timeout =>
      Rejected ("Worker for " +++ language +++ " failed to initialize within timeout")
  end.

(** What a handshake leaves behind, time apart. *)
Definition handshake_effect {H} (worker : Worker) (language : string)
    (me : Listener) (h : Handshake) (w : World H) : World H :=
  match h with
  | hs_pending | hs_timeout => w
  | hs_ready =>
      in_self (fun c => with_workerReady (JSMap.set language true (workerReady c)) c)
              (in_env (removeEventListener worker me) w)
  | hs_error _ | hs_fault _ => in_env (removeEventListener worker me) w
  end.

(** The existing worker of [language], if any, is terminated. *)
Definition retire {H} (language : string) (w : World H) : World H :=
  match JSMap.get language (workers (self w)) with
  | Some worker => in_env (worker_terminate worker) w
  | None => w
  end.

Definition listeners_left (h : Handshake) (me : Listener) : list Listener :=
  match h with
  | hs_pending | hs_timeout => [me]
  | hs_ready | hs_error _ | hs_fault _ => []
  end.

Definition readiness_after (h : Handshake) (language : string)
    (m : JSMap.t bool) : JSMap.t bool :=
  match h with
  | hs_ready => JSMap.set language true (JSMap.set language false m)
  | _ => JSMap.set language false m
  end.

(** The world after a worker has been constructed for [language] from
    [path] in [w] and its handshake has ended as [h]. *)
Definition constructed {H} (language path : string) (h : Handshake)
    (w : World H) : World H :=
  let worker := length (pool (env w)) in
  let me := handshakeHandler (closures (env w)) in
  mkWorld
    (mkCore (JSMap.set language worker (workers (self w)))
            (workerPaths (self w))
            (readiness_after h language (workerReady (self w)))
            (inputHandlers (self w)))
    (mkRuntime
       (pool (env w) ++ [mkWorkerObj path (listeners_left h me) (Some me) false []])
       (S (closures (env w))) (windowPrompt (env w)) (clock (env w)))
    (caller w).

Definition worker_outcome (language : string) (worker : Worker) (h : Handshake)
    : Outcome Worker :=
  match h with
  | hs_ready => Resolved worker
  | hs_pending => Pending
  | hs_error data => Rejected ("Worker initialization failed: " +++ data)
  | hs_fault message => Rejected ("Worker error: " +++ message)
  | hs_timeout =>
      Rejected ("Worker for " +++ language +++ " failed to initialize within timeout")
  end.

(** ** Execution sessions *)

(** The time that passes during a list of stimuli. *)
Fixpoint elapsed (tr : list Stimulus) : N :=
  match tr with
  | [] => 0
  | Elapse d :: tr' => d + elapsed tr'
  | _ :: tr' => elapsed tr'
  end.

(** A stimulus that neither ends an execution nor is a fault. *)
Definition quiet (s : Stimulus) : bool :=
  match s with
  | Message done | Message (error _) | Fault _ => false
  | _ => true
  end.

(** What the worker wrote on each stream during a list of stimuli, and the
    messages it posted. *)
Fixpoint stdout_of (tr : list Stimulus) : string :=
  match tr with
  | [] => ""
  | Message (stdout data) :: tr' => data +++ stdout_of tr'
  | _ :: tr' => stdout_of tr'
  end.

Fixpoint stderr_of (tr : list Stimulus) : string :=
  match tr with
  | [] => ""
  | Message (stderr data) :: tr' => data +++ stderr_of tr'
  | _ :: tr' => stderr_of tr'
  end.

Fixpoint messages_of (tr : list Stimulus) : list ExecutionEvent :=
  match tr with
  | [] => []
  | Message e :: tr' => e :: messages_of tr'
  | _ :: tr' => messages_of tr'
  end.

(** The timer, if any, does not fire within [t] milliseconds. *)
Definition outlasts (timer : option N) (t : N) : Prop :=
  match timer with
  | Some remaining => (t < remaining)%N
  | None => True
  end.

Definition timer_after (timer : option N) (t : N) : option N :=
  match timer with
  | Some remaining => Some (remaining - t)%N
  | None => None
  end.

(** The handler that answers an input request: whatever the language
    of the execution, it is the one registered under "python", or the
    default handler. *)
Definition answering_handler {H} (w : World H) : InputHandler :=
  match JSMap.get "python" (inputHandlers (self w)) with
  | Some handler => handler
  | None => defaultInputHandler (env w)
  end.

(** The world in which [executeOnWorker] starts to wait. *)
Definition started {H} (worker : Worker) (code : string) (w : World H) : World H :=
  let me := executionHandler (closures (env w)) in
  in_env (fun rt =>
    postMessage worker (run_code code)
      (set_onerror worker me
         (addEventListener worker me (snd (new_closure rt))))) w.

(** [options.inputHandler], when present, becomes the handler of the
    language. *)
Definition install {H} (language : string) (options : ExecutorOptions)
    (w : World H) : World H :=
  match opt_inputHandler options with
  | Some handler =>
      in_self (fun c =>
        with_inputHandlers (JSMap.set language handler (inputHandlers c)) c) w
  | None => w
  end.

Section Terms.
Context {H : Type}.
Variable eventHandler : ExecutionEvent -> H -> H.

(** The caller's event handler receives [e]. *)
Definition forward (e : ExecutionEvent) (w : World H) : World H :=
  mkWorld (self w) (env w) (eventHandler e (caller w)).

(** The world after a running execution has seen the quiet stimuli
    [pre]: time has passed, the events have been forwarded, the input
    requests have been answered. *)
Fixpoint during (worker : Worker) (pre : list Stimulus) (w : World H) : World H :=
  match pre with
  | [] => w
  | Elapse d :: pre' => during worker pre' (tick d w)
  | Message (input_request prompt) :: pre' =>
      during worker pre'
        (answer_input worker prompt (forward (input_request prompt) w))
  | Message e :: pre' => during worker pre' (forward e w)
  | Fault _ :: pre' => during worker pre' w
  end.

(** The end of [executeWithEvents]: the result of the session is copied,
    or the failure is caught and reported. *)
Definition conclude (startTime : N)
    (r : Outcome Output * World H * list Stimulus)
    : Outcome ExecutionResult * World H * list Stimulus :=
  match r with
  | (Resolved out, w', tr') =>
      (Resolved (mkResult (out_stdout out) (out_stderr out) (out_success out)
                          (Some (clock (env w') - startTime)%N)), w', tr')
  | (Rejected message, w', tr') =>
      (Resolved (mkResult "" ("Execution failed: " +++ message) false
                          (Some (clock (env w') - startTime)%N)),
       forward (error message) w', tr')
  | (Pending, w', tr') => (Pending, w', tr')
  end.

(** The world in which the execution of [request] on [worker] has
    received the quiet stimuli [pre] and then the terminal event [e]. *)
Definition finished (request : ExecutionRequest) (options : ExecutorOptions)
    (worker : Worker) (pre : list Stimulus) (e : ExecutionEvent)
    (w1 : World H) : World H :=
  let w2 := install (toLowerCase (language request)) options w1 in
  cleanup worker (executionHandler (closures (env w2)))
    (forward e (during worker pre (started worker (code request) w2))).
End Terms.

(** ** Concrete inputs *)

(** A fresh instance in a fresh environment without a window, and a caller
    whose event handler records the events it receives. *)
Definition fresh_runtime : Runtime := mkRuntime [] 0 None 0.

Definition record_event (e : ExecutionEvent) (log : list ExecutionEvent)
    : list ExecutionEvent := log ++ [e].

Definition fresh_world : World (list ExecutionEvent) :=
  mkWorld constructor fresh_runtime [].

Definition python_path : string := "./packages/py-executor/dist/index.js".

Definition print_a_b : ExecutionRequest :=
  mkRequest "print('a'); print('b')" "Python" None.

(** An instance whose python session failed its handshake. *)
Definition after_failed_handshake : World (list ExecutionEvent) :=
  constructed "python" python_path (hs_error "no pyodide") fresh_world.

Definition alice : InputHandler := fun _ => answers "Alice".

Definition ask_name : ExecutionRequest :=
  mkRequest "name = prompt('name?')" "javascript" None.

Definition asks_then_ends : list Stimulus :=
  [Message ready; Message (input_request "name?"); Message done].

(** What has been posted to the first worker. *)
Definition posted {H} (r : Outcome ExecutionResult * World H * list Stimulus)
    : option (list WorkerInput) :=
  option_map inbox (lookup_worker 0 (env (snd (fst r)))).

(** ** Further vocabulary: the registry and the sessions at large *)

(** The same world seen by another caller. *)
Definition recast {H H'} (h : H') (w : World H) : World H' :=
  mkWorld (self w) (env w) h.

(** A stimulus that does not decide a handshake. *)
Definition indecisive (s : Stimulus) : bool :=
  match s with
  | Message ready | Message (error _) | Fault _ => false
  | _ => true
  end.

(** The prompts of the input requests among a list of stimuli. *)
Fixpoint prompts_of (tr : list Stimulus) : list string :=
  match tr with
  | [] => []
  | Message (input_request prompt) :: tr' => prompt :: prompts_of tr'
  | _ :: tr' => prompts_of tr'
  end.

(** The message that answers [prompt] when [handler] is the input handler. *)
Definition response_of (handler : InputHandler) (prompt : string) : WorkerInput :=
  input_response match handler prompt with
                 | answers value => value
                 | fails _ => ""
                 end.

(** No worker is left running without a session: every worker of the pool
    that has not been terminated is the worker of some language. *)
Definition no_orphans {H} (w : World H) : Prop :=
  forall worker obj,
    lookup_worker worker (env w) = Some obj ->
    terminated obj = false ->
    exists language, In (language, worker) (workers (self w)).

(** The names of the supported languages are distinct and in lower case. *)
Definition canonical_languages (c : WebRunnrCore) : Prop :=
  NoDup (getSupportedLanguages c) /\
  Forall (fun name => toLowerCase name = name) (getSupportedLanguages c).

(** Whether an execution session that ended as [o] has run [cleanup()]:
    it has, unless the session is still pending or its timer fired. *)
Definition cleaned_up {A} (o : Outcome A) : bool :=
  match o with
  | Resolved _ => true
  | Rejected message => negb (String.eqb message "Execution timeout")
  | Pending => false
  end.

(** Two worlds with the same sessions in which the same workers have been
    terminated. *)
Definition same_liveness {H H'} (w : World H) (w' : World H') : Prop :=
  workers (self w') = workers (self w) /\
  forall worker,
    option_map terminated (lookup_worker worker (env w')) =
    option_map terminated (lookup_worker worker (env w)).

(** A string of ASCII characters. *)
Fixpoint ascii_only (s : string) : bool :=
  match s with
  | EmptyString => true
  | String c s' => (nat_of_ascii c <? 128)%nat && ascii_only s'
  end.

(** What a failed handshake leaves: the session of [language] holds
    [worker], which has not been terminated, and is not ready. *)
Definition left_unready {H} (language : string) (worker : Worker)
    (w : World H) : Prop :=
  JSMap.get language (workers (self w)) = Some worker /\
  JSMap.get language (workerReady (self w)) = Some false /\
  is_live worker (env w).

(** The next call of [getOrCreateWorker] for [language] in [w], whatever
    [worker] does in between, terminates [worker] and makes the next
    worker of the pool the session of the language. *)
Definition replaced_by_next_call {H} (language : string) (worker : Worker)
    (me : Listener) (w : World H) : Prop :=
  forall between tr o w' tr',
    getOrCreateWorker language (idle worker language me between w) tr =
      (o, w', tr') ->
    is_terminated worker (env w') /\
    JSMap.get language (workers (self w')) = Some (S worker) /\
    is_live (S worker) (env w').

(** * Properties *)

(** ** Case folding *)

Lemma lower_ascii_upper (n : nat) :
  97 <= n <= 122 -> lower_ascii (ascii_of_nat (n - 32)) = ascii_of_nat n.
Proof.
  intros Hn. unfold lower_ascii.
  rewrite nat_ascii_embedding by lia.
  replace (65 <=? n - 32)%nat with true by (symmetry; apply Nat.leb_le; lia).
  replace (n - 32 <=? 90)%nat with true by (symmetry; apply Nat.leb_le; lia).
  simpl. f_equal. lia.
Qed.

Lemma lower_ascii_lower (n : nat) :
  97 <= n <= 122 -> lower_ascii (ascii_of_nat n) = ascii_of_nat n.
Proof.
  intros Hn. unfold lower_ascii.
  rewrite nat_ascii_embedding by lia.
  replace (n <=? 90)%nat with false by (symmetry; apply Nat.leb_gt; lia).
  now rewrite andb_false_r.
Qed.

Lemma same_letter_lower (c d : ascii) :
  same_letter c d -> lower_ascii c = lower_ascii d.
Proof.
  intros [c'|n Hn|n Hn].
  - reflexivity.
  - now rewrite lower_ascii_upper, lower_ascii_lower.
  - now rewrite lower_ascii_upper, lower_ascii_lower.
Qed.

Lemma lower_ascii_of_nat (n : nat) :
  n < 256 ->
  lower_ascii (ascii_of_nat n) =
  if ((65 <=? n)%nat && (n <=? 90)%nat)%bool
  then ascii_of_nat (n + 32) else ascii_of_nat n.
Proof.
  intros B. unfold lower_ascii. now rewrite nat_ascii_embedding.
Qed.

Lemma lower_same_letter (c d : ascii) :
  lower_ascii c = lower_ascii d -> same_letter c d.
Proof.
  pose proof (nat_ascii_bounded c) as Bc.
  pose proof (nat_ascii_bounded d) as Bd.
  rewrite <- (ascii_nat_embedding c), <- (ascii_nat_embedding d).
  generalize dependent (nat_of_ascii d). generalize dependent (nat_of_ascii c).
  intros n Bn m Bm. rewrite !lower_ascii_of_nat by assumption.
  destruct ((65 <=? n)%nat && (n <=? 90)%nat)%bool eqn:Un;
  destruct ((65 <=? m)%nat && (m <=? 90)%nat)%bool eqn:Um;
  intros E.
  - apply andb_true_iff in Un as [U1 U2]. apply andb_true_iff in Um as [U3 U4].
    apply Nat.leb_le in U1, U2, U3, U4.
    apply (f_equal nat_of_ascii) in E.
    rewrite !nat_ascii_embedding in E by lia.
    replace m with n by lia. constructor.
  - apply andb_true_iff in Un as [U1 U2]. apply Nat.leb_le in U1, U2.
    rewrite <- E. replace n with (n + 32 - 32) at 1 by lia.
    apply upper_lower. lia.
  - apply andb_true_iff in Um as [U3 U4]. apply Nat.leb_le in U3, U4.
    rewrite E. replace m with (m + 32 - 32) at 2 by lia.
    apply lower_upper. lia.
  - rewrite E. constructor.
Qed.

Lemma toLowerCase_ignores_case (s t : string) :
  equal_ignoring_case s t <-> toLowerCase s = toLowerCase t.
Proof.
  split.
  - induction 1 as [|c d s t L _ IH]; simpl.
    + reflexivity.
    + now rewrite (same_letter_lower _ _ L), IH.
  - revert t. induction s as [|c s IH]; intros [|d t]; simpl; intros E;
      try discriminate.
    + constructor.
    + injection E as E1 E2. constructor.
      * now apply lower_same_letter.
      * now apply IH.
Qed.

(** ** Maps *)

Module JSMapFacts.
Section Facts.
Context {V : Type}.
Implicit Types (m : JSMap.t V) (k : string) (v : V).

Lemma get_set_eq k v m : JSMap.get k (JSMap.set k v m) = Some v.
Proof.
  induction m as [|[k' v'] m IH]; simpl.
  - now rewrite String.eqb_refl.
  - destruct (String.eqb k k') eqn:E; simpl.
    + now rewrite String.eqb_refl.
    + now rewrite E.
Qed.

Lemma get_set_neq k k' v m :
  k' <> k -> JSMap.get k' (JSMap.set k v m) = JSMap.get k' m.
Proof.
  intros N. induction m as [|[k2 v2] m IH]; simpl.
  - apply String.eqb_neq in N. now rewrite N.
  - destruct (String.eqb k k2) eqn:E; simpl.
    + apply String.eqb_eq in E. subst k2.
      apply String.eqb_neq in N. now rewrite N.
    + now rewrite IH.
Qed.

Lemma has_In_keys k m : JSMap.has k m = true <-> In k (JSMap.keys m).
Proof.
  unfold JSMap.has. induction m as [|[k' v'] m IH]; simpl.
  - split; [discriminate | tauto].
  - destruct (String.eqb k k') eqn:E.
    + apply String.eqb_eq in E. subst. tauto.
    + apply String.eqb_neq in E. rewrite IH. split; [tauto|].
      intros [E'|I]; [congruence | assumption].
Qed.

Lemma get_In k v m : JSMap.get k m = Some v -> In (k, v) m.
Proof.
  induction m as [|[k' v'] m IH]; simpl; [discriminate|].
  destruct (String.eqb k k') eqn:E; intros G.
  - apply String.eqb_eq in E. left. congruence.
  - right. auto.
Qed.

Lemma In_set k v m k' v' :
  In (k', v') (JSMap.set k v m) -> (k', v') = (k, v) \/ In (k', v') m.
Proof.
  induction m as [|[k2 v2] m IH]; simpl.
  - intros [E|[]]. left. congruence.
  - destruct (String.eqb k k2); simpl; intros [E|I]; auto.
    destruct (IH I); auto.
Qed.

Lemma In_delete k m k' v' : In (k', v') (JSMap.delete k m) -> In (k', v') m.
Proof.
  induction m as [|[k2 v2] m IH]; simpl; [tauto|].
  destruct (String.eqb k k2); simpl; intros I; auto.
  destruct I; auto.
Qed.

Lemma get_set k k' v m :
  JSMap.get k' (JSMap.set k v m) =
  if String.eqb k' k then Some v else JSMap.get k' m.
Proof.
  destruct (String.eqb k' k) eqn:E.
  - apply String.eqb_eq in E. subst. apply get_set_eq.
  - apply String.eqb_neq in E. now apply get_set_neq.
Qed.
End Facts.
End JSMapFacts.

(** ** Default executors *)

(** C10: a freshly constructed core has entry points for exactly the five
    languages python, javascript, typescript, cpp and java:
    [getSupportedLanguages] returns this list, and [isLanguageSupported]
    is true exactly for the strings that are equal to one of the five up
    to letter case. *)
Theorem C10_default_executors :
  getSupportedLanguages constructor = default_languages /\
  (forall name, In name default_languages ->
     JSMap.has name (workerPaths constructor) = true) /\
  (forall language,
     isLanguageSupported language constructor = true <->
     exists name, In name default_languages /\ equal_ignoring_case language name).
Proof.
  split; [reflexivity|]. split.
  - intros name I. apply JSMapFacts.has_In_keys. exact I.
  - intros language. unfold isLanguageSupported.
    rewrite JSMapFacts.has_In_keys.
    change (JSMap.keys (workerPaths constructor)) with default_languages.
    assert (L : forall name, In name default_languages -> toLowerCase name = name).
    { intros name I. simpl in I.
      repeat (destruct I as [<-|I]; [reflexivity|]). contradiction. }
    split.
    + intros I. exists (toLowerCase language). split; [exact I|].
      apply toLowerCase_ignores_case. symmetry. now apply L.
    + intros (name & I & E). apply toLowerCase_ignores_case in E.
      rewrite E, (L name I). exact I.
Qed.

(** ** The worker pool *)

Section Pool.
Context {A : Type}.
Implicit Types (f : A -> A) (l : list A).

Lemma length_update_nth n f l : length (update_nth n f l) = length l.
Proof.
  revert n. induction l as [|x l IH]; intros [|n]; simpl; auto.
Qed.

Lemma nth_error_update_nth_eq n f l :
  nth_error (update_nth n f l) n = option_map f (nth_error l n).
Proof.
  revert n. induction l as [|x l IH]; intros [|n]; simpl; auto.
Qed.

Lemma nth_error_update_nth_neq n m f l :
  m <> n -> nth_error (update_nth n f l) m = nth_error l m.
Proof.
  revert n m. induction l as [|x l IH]; intros [|n] [|m] N; simpl; auto.
  contradiction.
Qed.
End Pool.

Lemma lookup_on_worker_eq worker f rt :
  lookup_worker worker (on_worker worker f rt) =
  option_map f (lookup_worker worker rt).
Proof. apply nth_error_update_nth_eq. Qed.

Lemma lookup_on_worker_neq worker other f rt :
  other <> worker ->
  lookup_worker other (on_worker worker f rt) = lookup_worker other rt.
Proof. apply nth_error_update_nth_neq. Qed.

Lemma pool_on_worker_length worker f rt :
  length (pool (on_worker worker f rt)) = length (pool rt).
Proof. apply length_update_nth. Qed.

Lemma worker_terminate_terminates worker rt :
  worker < length (pool rt) -> is_terminated worker (worker_terminate worker rt).
Proof.
  intros B. unfold is_terminated, worker_terminate.
  rewrite lookup_on_worker_eq. unfold lookup_worker.
  destruct (nth_error (pool rt) worker) as [o|] eqn:E.
  - simpl. eauto.
  - apply nth_error_None in E. lia.
Qed.

Lemma worker_terminate_keeps worker other rt :
  is_terminated other rt -> is_terminated other (worker_terminate worker rt).
Proof.
  intros (o & L & T). unfold is_terminated, worker_terminate.
  destruct (Nat.eq_dec other worker) as [->|N].
  - rewrite lookup_on_worker_eq, L. simpl. eauto.
  - rewrite lookup_on_worker_neq by assumption. eauto.
Qed.

Lemma terminate_all_keeps (l : JSMap.t Worker) other rt :
  is_terminated other rt ->
  is_terminated other
    (fold_left (fun rt entry => worker_terminate (snd entry) rt) l rt).
Proof.
  revert rt. induction l as [|[k wk] l IH]; simpl; intros rt T.
  - exact T.
  - apply IH. now apply worker_terminate_keeps.
Qed.

Lemma terminate_all_terminates (l : JSMap.t Worker) worker rt :
  In worker (JSMap.values l) -> worker < length (pool rt) ->
  is_terminated worker
    (fold_left (fun rt entry => worker_terminate (snd entry) rt) l rt).
Proof.
  revert rt. induction l as [|[k wk] l IH]; simpl; intros rt I B.
  - contradiction.
  - destruct I as [->|I].
    + apply terminate_all_keeps. now apply worker_terminate_terminates.
    + apply IH; [exact I|]. unfold worker_terminate.
      now rewrite pool_on_worker_length.
Qed.

(** ** Global termination *)

(** C8: [terminate()] tells the runtime to terminate the executor of every
    session, empties the session map, the readiness flags and the input
    handlers, and leaves the entry points as they were, so that
    [getSupportedLanguages()] (and [isLanguageSupported]) answer as
    before; a second [terminate()] changes nothing. *)
Theorem C8_terminate_clears_sessions {H : Type} (w : World H) :
  (well_formed w ->
   forall language worker,
     In (language, worker) (workers (self w)) ->
     is_terminated worker (env (terminate w))) /\
  workers (self (terminate w)) = JSMap.empty /\
  workerReady (self (terminate w)) = JSMap.empty /\
  inputHandlers (self (terminate w)) = JSMap.empty /\
  workerPaths (self (terminate w)) = workerPaths (self w) /\
  getSupportedLanguages (self (terminate w)) = getSupportedLanguages (self w) /\
  (forall language,
     isLanguageSupported language (self (terminate w)) =
     isLanguageSupported language (self w)) /\
  terminate (terminate w) = terminate w.
Proof.
  repeat split.
  intros I language worker G. unfold terminate; simpl.
  apply terminate_all_terminates; [|apply (I language worker G)].
  unfold JSMap.values. change worker with (snd (language, worker)).
  now apply in_map.
Qed.

(** ** Time *)

Lemma tick_0 {H} (w : World H) : tick 0 w = w.
Proof.
  destruct w as [c [p n wp k] h]. unfold tick, advance; simpl.
  now rewrite N.add_0_r.
Qed.

Lemma tick_tick {H} (a b : N) (w : World H) : tick b (tick a w) = tick (a + b) w.
Proof.
  destruct w as [c [p n wp k] h]. unfold tick, advance; simpl.
  now rewrite N.add_assoc.
Qed.

(** ** The readiness handshake *)

Lemma awaitReady_cases {H} worker language me :
  forall tr remaining (w : World H),
  exists h t tr',
    awaitReady worker language me remaining tr w =
      (handshake_outcome language h,
       handshake_effect worker language me h (tick t w), tr') /\
    (t <= remaining)%N /\
    (h = hs_timeout -> t = remaining) /\
    (h = hs_pending -> tr' = [] /\ (0 < remaining -> elapsed tr < remaining)%N).
Proof.
  induction tr as [|s tr IH]; intros remaining w.
  - exists hs_pending, 0%N, []. simpl. rewrite tick_0.
    repeat split; auto; try discriminate. lia.
  - destruct s as [e|message|d].
    + destruct e; simpl;
        try (destruct (IH remaining w) as (h & t & tr' & E & B);
             exists h, t, tr'; split; [exact E | exact B]).
      * exists hs_ready, 0%N, tr. simpl. rewrite tick_0.
        repeat split; auto; try discriminate. lia.
      * exists (hs_error data), 0%N, tr. simpl. rewrite tick_0.
        repeat split; auto; try discriminate. lia.
    + exists (hs_fault message), 0%N, tr. simpl. rewrite tick_0.
      repeat split; auto; try discriminate. lia.
    + simpl. destruct (d <? remaining)%N eqn:D.
      * apply N.ltb_lt in D.
        destruct (IH (remaining - d)%N (tick d w)) as (h & t & tr' & E & B1 & B2 & B3).
        exists h, (d + t)%N, tr'. rewrite E, tick_tick.
        split; [reflexivity|]. split; [lia|]. split.
        -- intros T. specialize (B2 T). lia.
        -- intros P. destruct (B3 P) as [B4 B5]. split; [exact B4|].
           intros _. assert (elapsed tr < remaining - d)%N by (apply B5; lia). lia.
      * exists hs_timeout, remaining, (Elapse (d - remaining) :: tr). simpl.
        repeat split; auto; try discriminate. lia.
Qed.

(** ** Construction of a session *)

Lemma update_nth_snoc {A} (f : A -> A) (l : list A) (x : A) :
  update_nth (length l) f (l ++ [x]) = l ++ [f x].
Proof. induction l as [|y l IH]; simpl; [reflexivity | now rewrite IH]. Qed.

Lemma update_nth_snoc' {A} (f : A -> A) (l : list A) (x : A) (n : nat) :
  n = length l -> update_nth n f (l ++ [x]) = l ++ [f x].
Proof. intros ->. apply update_nth_snoc. Qed.

Lemma nth_error_snoc {A} (l : list A) (x : A) :
  nth_error (l ++ [x]) (length l) = Some x.
Proof. induction l as [|y l IH]; simpl; auto. Qed.

Lemma getOrCreateWorker_reuse {H} language (w : World H) tr worker :
  JSMap.get language (workers (self w)) = Some worker ->
  JSMap.get language (workerReady (self w)) = Some true ->
  getOrCreateWorker language w tr = (Resolved worker, w, tr).
Proof.
  intros G R. unfold getOrCreateWorker, bind, gets. now rewrite G, R.
Qed.

Lemma getOrCreateWorker_no_executor {H} language (w : World H) tr :
  session_ready language (self w) = false ->
  match JSMap.get language (workerPaths (self w)) with
  | Some path => truthy path = false
  | None => True
  end ->
  getOrCreateWorker language w tr =
  (Rejected ("No executor found for language: " +++ language),
   retire language w, tr).
Proof.
  unfold session_ready, retire, getOrCreateWorker, bind, gets, on_env, ret, throw.
  intros R P.
  destruct (JSMap.get language (workers (self w))) as [old|];
    [destruct (JSMap.get language (workerReady (self w))) as [[|]|];
     try discriminate|]; simpl;
    destruct (JSMap.get language (workerPaths (self w))) as [path|];
    try rewrite P; try reflexivity; destruct w; reflexivity.
Qed.

Lemma getOrCreateWorker_constructs {H} language path (w : World H) tr :
  session_ready language (self w) = false ->
  JSMap.get language (workerPaths (self w)) = Some path ->
  truthy path = true ->
  exists h t tr',
    getOrCreateWorker language w tr =
      (worker_outcome language (length (pool (env w))) h,
       constructed language path h (tick t (retire language w)), tr') /\
    (t <= handshake_timeout)%N /\
    (h = hs_timeout -> t = handshake_timeout) /\
    (h = hs_pending -> tr' = [] /\ (elapsed tr < handshake_timeout)%N).
Proof.
  intros R P T.
  destruct (awaitReady_cases
              (length (pool (env (retire language w)))) language
              (handshakeHandler (closures (env (retire language w)))) tr
              handshake_timeout
              (constructed language path hs_pending (retire language w)))
    as (h & t & tr' & E & B).
  exists h, t, tr'. split;
    [|destruct B as (B1 & B2 & B3); repeat split; auto; apply B3; auto; reflexivity].
  unfold getOrCreateWorker, waitForWorkerReady, bind, gets, on_env, on_self,
    from_env, ret, throw.
  unfold session_ready in R. unfold retire in *.
  destruct w as [[ws ps rs hs] [p n wp k] hh]; simpl in *.
  destruct (JSMap.get language ws) as [old|];
    [destruct (JSMap.get language rs) as [[|]|]; try discriminate|];
    simpl in *; rewrite P, T; simpl.
  all: do 2 (try unfold constructed, in_env, worker_terminate, on_worker,
               set_onerror, addEventListener, new_closure, new_Worker,
               with_workerReady, with_workers in *; simpl in *).
  all: rewrite ?length_update_nth in *.
  all: repeat rewrite update_nth_snoc' in * by now rewrite ?length_update_nth.
  all: simpl in *.
  all: match goal with
       | |- context [awaitReady ?a ?b ?c ?d ?e ?f] =>
           match type of E with
           | _ = ?r => replace (awaitReady a b c d e f) with r by (symmetry; exact E)
           end
       end.
  all: unfold handshake_effect, removeEventListener, in_env, in_self, on_worker,
         with_workerReady.
  all: destruct h; simpl;
         repeat rewrite update_nth_snoc' by now rewrite ?length_update_nth.
  all: simpl; rewrite ?Nat.eqb_refl; reflexivity.
Qed.

Lemma retire_self {H} language (w : World H) : self (retire language w) = self w.
Proof. unfold retire. now destruct (JSMap.get language (workers (self w))). Qed.

Lemma retire_pool_length {H} language (w : World H) :
  length (pool (env (retire language w))) = length (pool (env w)).
Proof.
  unfold retire. destruct (JSMap.get language (workers (self w))); simpl;
    [apply length_update_nth | reflexivity].
Qed.

Lemma retire_closures {H} language (w : World H) :
  closures (env (retire language w)) = closures (env w).
Proof. unfold retire. now destruct (JSMap.get language (workers (self w))). Qed.

Lemma retire_terminates {H} language (w : World H) old :
  JSMap.get language (workers (self w)) = Some old ->
  old < length (pool (env w)) ->
  is_terminated old (env (retire language w)).
Proof.
  intros G B. unfold retire. rewrite G. simpl.
  now apply worker_terminate_terminates.
Qed.

Lemma lookup_constructed_old {H} language path h t (w : World H) worker :
  worker < length (pool (env w)) ->
  lookup_worker worker (env (constructed language path h (tick t w))) =
  lookup_worker worker (env w).
Proof.
  intros B. unfold lookup_worker. simpl. now apply nth_error_app1.
Qed.

Lemma lookup_constructed_new {H} language path h t (w : World H) :
  lookup_worker (length (pool (env w)))
                (env (constructed language path h (tick t w))) =
  Some (mkWorkerObj path
          (listeners_left h (handshakeHandler (closures (env w))))
          (Some (handshakeHandler (closures (env w)))) false []).
Proof. unfold lookup_worker. simpl. apply nth_error_snoc. Qed.

Lemma constructed_workers {H} language path h t (w : World H) :
  JSMap.get language (workers (self (constructed language path h (tick t w)))) =
  Some (length (pool (env w))).
Proof. simpl. apply JSMapFacts.get_set_eq. Qed.

Lemma constructed_ready {H} language path h t (w : World H) :
  JSMap.get language (workerReady (self (constructed language path h (tick t w)))) =
  Some (match h with hs_ready => true | _ => false end).
Proof. destruct h; simpl; apply JSMapFacts.get_set_eq. Qed.

Lemma worker_outcome_inj language worker h1 h2 :
  worker_outcome language worker h1 = worker_outcome language worker h2 -> h1 = h2.
Proof.
  destruct h1, h2; simpl; intros E; try discriminate; try reflexivity;
    injection E as E; congruence.
Qed.

Lemma session_ready_false language c :
  JSMap.get language (workerReady c) <> Some true ->
  session_ready language c = false.
Proof.
  unfold session_ready. intros N.
  destruct (JSMap.get language (workers c)); [|reflexivity].
  destruct (JSMap.get language (workerReady c)) as [[|]|]; congruence.
Qed.

(** What a call that has to replace the session of [language] leaves
    behind, whatever the handshake of the new worker does. *)
Lemma getOrCreateWorker_replaces {H} language path (w : World H) tr old :
  JSMap.get language (workers (self w)) = Some old ->
  JSMap.get language (workerReady (self w)) <> Some true ->
  JSMap.get language (workerPaths (self w)) = Some path ->
  truthy path = true ->
  old < length (pool (env w)) ->
  forall o w' tr',
    getOrCreateWorker language w tr = (o, w', tr') ->
    is_terminated old (env w') /\
    length (pool (env w')) = S (length (pool (env w))) /\
    JSMap.get language (workers (self w')) = Some (length (pool (env w))) /\
    (exists obj, lookup_worker (length (pool (env w))) (env w') = Some obj /\
                 scriptURL obj = path /\ terminated obj = false) /\
    (forall x, o = Resolved x -> x = length (pool (env w))).
Proof.
  intros G R P T B o w' tr' E.
  destruct (getOrCreateWorker_constructs language path w tr
              (session_ready_false _ _ R) P T) as (h & t & tr2 & E2 & _).
  rewrite E in E2. injection E2 as -> -> ->.
  pose proof (retire_pool_length language w) as L.
  split; [|split; [|split; [|split]]].
  - destruct (retire_terminates language w old G B) as (obj & Lk & Tm).
    exists obj. split; [|exact Tm].
    rewrite lookup_constructed_old; [exact Lk | now rewrite L].
  - simpl. rewrite length_app, L. simpl. lia.
  - rewrite <- L. apply constructed_workers.
  - rewrite <- L. rewrite lookup_constructed_new. eexists. split; [reflexivity|].
    split; reflexivity.
  - intros x. destruct h; simpl; try discriminate. congruence.
Qed.

(** ** Reuse and replacement of sessions *)

(** C7, as stated, fails: a session that exists but is not ready is not
    always replaced.  After a handshake that failed, and once the entry
    point of the language has been registered anew as the empty path, the
    next call terminates the worker of the session and then fails: no
    worker is constructed, and the session still maps the language to the
    terminated worker. *)
Lemma C7_unready_session_without_entry_point :
  exists w1 w2,
    getOrCreateWorker "python" fresh_world [Message (error "no pyodide")] =
      (Rejected "Worker initialization failed: no pyodide", w1, []) /\
    JSMap.get "python" (workers (self w1)) = Some 0 /\
    JSMap.get "python" (workerReady (self w1)) = Some false /\
    getOrCreateWorker "python" (in_self (registerExecutor "Python" "") w1)
      [Message ready] =
      (Rejected "No executor found for language: python", w2, [Message ready]) /\
    is_terminated 0 (env w2) /\
    length (pool (env w2)) = 1 /\
    JSMap.get "python" (workers (self w2)) = Some 0.
Proof.
  eexists. eexists.
  split; [vm_compute; reflexivity|].
  split; [reflexivity|]. split; [reflexivity|].
  split; [vm_compute; reflexivity|].
  split; [eexists; split; reflexivity|].
  split; reflexivity.
Qed.

(** C7, amended: when the session of a language is ready,
    [getOrCreateWorker] returns its worker and changes nothing (in
    particular no worker is constructed), so that a call that follows a
    call that returned a worker returns the same handle.  When a session
    exists but is not ready, its worker is terminated; then, when the
    language has a non-empty entry point, a new worker is constructed from
    it and becomes the session of the language, and when it has none, or
    the empty path, the call fails with "No executor found" and
    constructs nothing. *)
Theorem C7_reuse_and_replacement {H} (language : string) (w : World H)
    (tr : list Stimulus) :
  (forall worker,
     JSMap.get language (workers (self w)) = Some worker ->
     JSMap.get language (workerReady (self w)) = Some true ->
     getOrCreateWorker language w tr = (Resolved worker, w, tr)) /\
  (forall worker w1 tr1,
     getOrCreateWorker language w tr = (Resolved worker, w1, tr1) ->
     forall tr2, getOrCreateWorker language w1 tr2 = (Resolved worker, w1, tr2)) /\
  (forall old,
     JSMap.get language (workers (self w)) = Some old ->
     JSMap.get language (workerReady (self w)) <> Some true ->
     old < length (pool (env w)) ->
     (forall path,
        JSMap.get language (workerPaths (self w)) = Some path ->
        truthy path = true ->
        forall o w' tr',
          getOrCreateWorker language w tr = (o, w', tr') ->
          is_terminated old (env w') /\
          length (pool (env w')) = S (length (pool (env w))) /\
          JSMap.get language (workers (self w')) = Some (length (pool (env w))) /\
          (exists obj, lookup_worker (length (pool (env w))) (env w') = Some obj /\
                       scriptURL obj = path /\ terminated obj = false) /\
          (forall x, o = Resolved x -> x = length (pool (env w)))) /\
     (JSMap.get language (workerPaths (self w)) = None \/
      JSMap.get language (workerPaths (self w)) = Some "" ->
      getOrCreateWorker language w tr =
        (Rejected ("No executor found for language: " +++ language),
         in_env (worker_terminate old) w, tr) /\
      is_terminated old (env (in_env (worker_terminate old) w)) /\
      length (pool (env (in_env (worker_terminate old) w))) =
        length (pool (env w)))).
Proof.
  split; [|split].
  - intros worker G R. now apply getOrCreateWorker_reuse.
  - intros worker w1 tr1 E tr2.
    destruct (session_ready language (self w)) eqn:S.
    + unfold session_ready in S.
      destruct (JSMap.get language (workers (self w))) as [wk|] eqn:G;
        [|discriminate].
      destruct (JSMap.get language (workerReady (self w))) as [[|]|] eqn:R;
        try discriminate.
      rewrite (getOrCreateWorker_reuse language w tr wk G R) in E.
      injection E as <- <- <-. now apply getOrCreateWorker_reuse.
    + destruct (JSMap.get language (workerPaths (self w))) as [path|] eqn:P.
      * destruct (truthy path) eqn:T.
        -- destruct (getOrCreateWorker_constructs language path w tr S P T)
             as (h & t & tr' & E2 & _).
           rewrite E in E2. destruct h; try discriminate.
           injection E2 as -> -> ->.
           apply getOrCreateWorker_reuse.
           ++ rewrite <- (retire_pool_length language w).
              apply constructed_workers.
           ++ apply (constructed_ready language path hs_ready).
        -- rewrite getOrCreateWorker_no_executor in E; [discriminate|exact S|].
           now rewrite P.
      * rewrite getOrCreateWorker_no_executor in E; [discriminate|exact S|].
        now rewrite P.
  - intros old G R B. split.
    + intros path P T. now apply getOrCreateWorker_replaces.
    + intros P. split; [|split].
      * rewrite getOrCreateWorker_no_executor.
        -- unfold retire. now rewrite G.
        -- now apply session_ready_false.
        -- destruct P as [P|P]; now rewrite P.
      * now apply worker_terminate_terminates.
      * apply length_update_nth.
Qed.

(** ** The handshake, stimulus by stimulus *)

Lemma awaitReady_indecisive {H} worker language me :
  forall hs remaining (w : World H) rest,
    forallb indecisive hs = true ->
    (elapsed hs < remaining)%N ->
    awaitReady worker language me remaining (hs ++ rest) w =
    awaitReady worker language me (remaining - elapsed hs)%N rest
      (tick (elapsed hs) w).
Proof.
  induction hs as [|s hs IH]; intros remaining w rest Q B; simpl in *.
  - now rewrite tick_0, N.sub_0_r.
  - apply andb_true_iff in Q as [Q1 Q2].
    destruct s as [e|fault|d]; [destruct e| |]; try discriminate; simpl;
      try (apply IH; assumption).
    replace (d <? remaining)%N with true by (symmetry; apply N.ltb_lt; lia).
    rewrite IH by (assumption || lia). rewrite tick_tick.
    now replace (remaining - d - elapsed hs)%N
      with (remaining - (d + elapsed hs))%N by lia.
Qed.

Lemma awaitReady_times_out {H} worker language me :
  forall tr remaining (w : World H),
    forallb indecisive tr = true ->
    (0 < remaining <= elapsed tr)%N ->
    exists tr',
      awaitReady worker language me remaining tr w =
      (handshake_outcome language hs_timeout, tick remaining w, tr').
Proof.
  induction tr as [|s tr IH]; intros remaining w Q B; simpl in *.
  - lia.
  - apply andb_true_iff in Q as [Q1 Q2].
    destruct s as [e|fault|d]; [destruct e| |]; try discriminate; simpl;
      try (apply IH; assumption).
    destruct (d <? remaining)%N eqn:D.
    + apply N.ltb_lt in D.
      destruct (IH (remaining - d)%N (tick d w) Q2) as (tr' & E); [lia|].
      exists tr'. rewrite E, tick_tick.
      now replace (d + (remaining - d))%N with remaining by lia.
    + eexists. reflexivity.
Qed.

(** [getOrCreateWorker], when it constructs, ends as the handshake does. *)
Lemma getOrCreateWorker_awaits {H} language path (w : World H) tr h t tr' :
  session_ready language (self w) = false ->
  JSMap.get language (workerPaths (self w)) = Some path ->
  truthy path = true ->
  awaitReady (length (pool (env (retire language w)))) language
    (handshakeHandler (closures (env (retire language w)))) handshake_timeout tr
    (constructed language path hs_pending (retire language w)) =
    (handshake_outcome language h,
     handshake_effect (length (pool (env (retire language w)))) language
       (handshakeHandler (closures (env (retire language w)))) h
       (tick t (constructed language path hs_pending (retire language w))),
     tr') ->
  getOrCreateWorker language w tr =
    (worker_outcome language (length (pool (env w))) h,
     constructed language path h (tick t (retire language w)), tr').
Proof.
  intros R P T E.
  unfold getOrCreateWorker, waitForWorkerReady, bind, gets, on_env, on_self,
    from_env, ret, throw.
  unfold session_ready in R. unfold retire in *.
  destruct w as [[ws ps rs hs] [p n wp k] hh]; simpl in *.
  destruct (JSMap.get language ws) as [old|];
    [destruct (JSMap.get language rs) as [[|]|]; try discriminate|];
    simpl in *; rewrite P, T; simpl.
  all: do 2 (try unfold constructed, in_env, worker_terminate, on_worker,
               set_onerror, addEventListener, new_closure, new_Worker,
               with_workerReady, with_workers in *; simpl in *).
  all: rewrite ?length_update_nth in *.
  all: repeat rewrite update_nth_snoc' in * by now rewrite ?length_update_nth.
  all: simpl in *.
  all: match goal with
       | |- context [awaitReady ?a ?b ?c ?d ?e ?f] =>
           match type of E with
           | _ = ?r => replace (awaitReady a b c d e f) with r by (symmetry; exact E)
           end
       end.
  all: unfold handshake_effect, removeEventListener, in_env, in_self, on_worker,
         with_workerReady.
  all: destruct h; simpl;
         repeat rewrite update_nth_snoc' by now rewrite ?length_update_nth.
  all: simpl; rewrite ?Nat.eqb_refl; reflexivity.
Qed.

Lemma getOrCreateWorker_handshake {H} language path (w : World H) hs rest :
  session_ready language (self w) = false ->
  JSMap.get language (workerPaths (self w)) = Some path ->
  truthy path = true ->
  forallb indecisive hs = true ->
  (elapsed hs < handshake_timeout)%N ->
  getOrCreateWorker language w (hs ++ Message ready :: rest) =
  (Resolved (length (pool (env w))),
   constructed language path hs_ready (tick (elapsed hs) (retire language w)),
   rest).
Proof.
  intros R P T Q B.
  apply (getOrCreateWorker_awaits language path w _ hs_ready (elapsed hs) rest R P T).
  rewrite awaitReady_indecisive by assumption. reflexivity.
Qed.

Lemma getOrCreateWorker_times_out {H} language path (w : World H) tr :
  session_ready language (self w) = false ->
  JSMap.get language (workerPaths (self w)) = Some path ->
  truthy path = true ->
  forallb indecisive tr = true ->
  (handshake_timeout <= elapsed tr)%N ->
  exists tr',
    getOrCreateWorker language w tr =
    (Rejected ("Worker for " +++ language +++ " failed to initialize within timeout"),
     constructed language path hs_timeout (tick handshake_timeout (retire language w)),
     tr').
Proof.
  intros R P T Q B.
  destruct (awaitReady_times_out (length (pool (env (retire language w)))) language
              (handshakeHandler (closures (env (retire language w)))) tr
              handshake_timeout
              (constructed language path hs_pending (retire language w)) Q)
    as (tr' & E); [split; [reflexivity | exact B]|].
  exists tr'.
  exact (getOrCreateWorker_awaits language path w tr hs_timeout handshake_timeout
           tr' R P T E).
Qed.

(** ** Failed handshakes *)

Lemma is_live_not_terminated worker rt :
  is_live worker rt -> ~ is_terminated worker rt.
Proof. intros (o & L & T) (o' & L' & T'). congruence. Qed.

(** C3, as stated, fails: after a handshake that ends with an error
    message, and after one that times out, the session of the language
    still holds the new worker, which has not been terminated; after the
    timeout the message listener of the handshake is still registered. *)
Lemma C3_failed_handshake_leaves_live_session :
  (exists w' tr',
     getOrCreateWorker "python" fresh_world [Message (error "no pyodide")] =
       (Rejected "Worker initialization failed: no pyodide", w', tr') /\
     ~ session_terminated "python" w') /\
  (exists w' tr',
     getOrCreateWorker "python" fresh_world [Elapse 30000] =
       (Rejected "Worker for python failed to initialize within timeout", w', tr') /\
     ~ session_terminated "python" w' /\
     exists obj, lookup_worker 0 (env w') = Some obj /\
                 In (handshakeHandler 0) (messageListeners obj)).
Proof.
  split.
  - eexists. eexists. split; [vm_compute; reflexivity|].
    apply is_live_not_terminated. eexists. split; reflexivity.
  - eexists. eexists. split; [vm_compute; reflexivity|]. split.
    + apply is_live_not_terminated. eexists. split; reflexivity.
    + eexists. split; [reflexivity|]. simpl. auto.
Qed.

Lemma awaitReady_times_out_within {H} worker language me :
  forall hs rest remaining (w : World H),
    forallb indecisive hs = true ->
    (0 < remaining <= elapsed hs)%N ->
    exists tr',
      awaitReady worker language me remaining (hs ++ rest) w =
      (handshake_outcome language hs_timeout, tick remaining w, tr').
Proof.
  induction hs as [|s hs IH]; intros rest remaining w Q B; simpl in *.
  - lia.
  - apply andb_true_iff in Q as [Q1 Q2].
    destruct s as [e|fault|d]; [destruct e| |]; try discriminate; simpl;
      try (apply IH; assumption).
    destruct (d <? remaining)%N eqn:D.
    + apply N.ltb_lt in D.
      destruct (IH rest (remaining - d)%N (tick d w) Q2) as (tr' & E); [lia|].
      exists tr'. rewrite E, tick_tick.
      now replace (d + (remaining - d))%N with remaining by lia.
    + eexists. reflexivity.
Qed.

(** The stimulus that decides a handshake, after those that do not. *)
Lemma getOrCreateWorker_decided {H} language path (w : World H) hs s rest h :
  session_ready language (self w) = false ->
  JSMap.get language (workerPaths (self w)) = Some path ->
  truthy path = true ->
  forallb indecisive hs = true ->
  (elapsed hs < handshake_timeout)%N ->
  match s, h with
  | Message ready, hs_ready => True
  | Message (error data), hs_error data' => data = data'
  | Fault message, hs_fault message' => message = message'
  | _, _ => False
  end ->
  getOrCreateWorker language w (hs ++ s :: rest) =
  (worker_outcome language (length (pool (env w))) h,
   constructed language path h (tick (elapsed hs) (retire language w)),
   rest).
Proof.
  intros R P T Q B M.
  apply (getOrCreateWorker_awaits language path w _ h (elapsed hs) rest R P T).
  rewrite awaitReady_indecisive by assumption.
  destruct s as [e|message|d]; [destruct e| |]; destruct h;
    try contradiction; subst; reflexivity.
Qed.

Lemma getOrCreateWorker_undecided {H} language path (w : World H) hs :
  session_ready language (self w) = false ->
  JSMap.get language (workerPaths (self w)) = Some path ->
  truthy path = true ->
  forallb indecisive hs = true ->
  (elapsed hs < handshake_timeout)%N ->
  getOrCreateWorker language w hs =
  (Pending,
   constructed language path hs_pending (tick (elapsed hs) (retire language w)),
   []).
Proof.
  intros R P T Q B.
  apply (getOrCreateWorker_awaits language path w _ hs_pending (elapsed hs) [] R P T).
  rewrite <- (app_nil_r hs) at 1.
  rewrite awaitReady_indecisive by assumption. reflexivity.
Qed.

Lemma getOrCreateWorker_times_out_within {H} language path (w : World H) hs rest :
  session_ready language (self w) = false ->
  JSMap.get language (workerPaths (self w)) = Some path ->
  truthy path = true ->
  forallb indecisive hs = true ->
  (handshake_timeout <= elapsed hs)%N ->
  exists tr',
    getOrCreateWorker language w (hs ++ rest) =
    (Rejected ("Worker for " +++ language +++ " failed to initialize within timeout"),
     constructed language path hs_timeout (tick handshake_timeout (retire language w)),
     tr').
Proof.
  intros R P T Q B.
  destruct (awaitReady_times_out_within
              (length (pool (env (retire language w)))) language
              (handshakeHandler (closures (env (retire language w)))) hs rest
              handshake_timeout
              (constructed language path hs_pending (retire language w)) Q)
    as (tr' & E); [split; [reflexivity | exact B]|].
  exists tr'.
  exact (getOrCreateWorker_awaits language path w _ hs_timeout handshake_timeout
           tr' R P T E).
Qed.

(** *** What the worker of a failed handshake can still do *)

Lemma update_nth_same {A} (f : A -> A) (l : list A) (n : nat) (x : A) :
  nth_error l n = Some x -> f x = x -> update_nth n f l = l.
Proof.
  revert n. induction l as [|y l IH]; intros [|n] L E; simpl in *;
    try discriminate.
  - injection L as ->. now rewrite E.
  - now rewrite (IH n L E).
Qed.

Lemma filter_absent (me : Listener) (ls : list Listener) :
  existsb (Listener_eqb me) ls = false ->
  filter (fun l' => negb (Listener_eqb me l')) ls = ls.
Proof.
  induction ls as [|l ls IH]; simpl; [reflexivity|].
  intros E. apply orb_false_iff in E as [E1 E2].
  now rewrite E1, (IH E2).
Qed.

Lemma removeEventListener_absent worker me rt obj :
  lookup_worker worker rt = Some obj ->
  existsb (Listener_eqb me) (messageListeners obj) = false ->
  pool (removeEventListener worker me rt) = pool rt.
Proof.
  intros L A. unfold removeEventListener, on_worker. simpl.
  apply (update_nth_same _ _ _ obj L).
  rewrite (filter_absent _ _ A). now destruct obj.
Qed.

(** The handshake of [me] runs its message listener on what comes
    first. *)
Lemma awaitReady_runs_messageHandler {H} worker language me remaining e
    (w : World H) :
  snd (fst (awaitReady worker language me remaining [Message e] w)) =
  handshake_messageHandler worker language me e w.
Proof. destruct e; reflexivity. Qed.

(** Once the message listener of the handshake is deregistered, nothing
    that the worker does while no call is waiting changes the registry or
    the workers. *)
Lemma idle_deregistered {H} worker language me :
  forall between (w : World H),
    is_registered worker me (env w) = false ->
    self (idle worker language me between w) = self w /\
    pool (env (idle worker language me between w)) = pool (env w).
Proof.
  induction between as [|s between IH]; intros w A; simpl; [auto|].
  assert (S : self (late worker language me s w) = self w /\
              pool (env (late worker language me s w)) = pool (env w)).
  { unfold is_registered in A.
    destruct s as [e|message|d]; simpl; [| |auto].
    - destruct (lookup_worker worker (env w)) as [obj|]; [|auto].
      destruct (terminated obj); [auto|]. now rewrite A.
    - destruct (lookup_worker worker (env w)) as [obj|] eqn:L; [|auto].
      destruct (terminated obj); [auto|].
      destruct (onerror obj) as [l|]; [|auto].
      destruct (Listener_eqb l me); [|auto].
      split; [reflexivity|]. simpl.
      now apply (removeEventListener_absent worker me (env w) obj). }
  destruct S as [S1 S2].
  destruct (IH (late worker language me s w)) as [I1 I2].
  - unfold is_registered, lookup_worker in *. now rewrite S2.
  - split; congruence.
Qed.

(** After a failure by an error message or by a fault, the next call
    replaces the worker, whatever the worker does in the meantime. *)
Lemma failed_worker_is_replaced {H} language path h t (w : World H) :
  JSMap.get language (workerPaths (self w)) = Some path ->
  truthy path = true ->
  match h with hs_error _ | hs_fault _ => True | _ => False end ->
  replaced_by_next_call language (length (pool (env w)))
    (handshakeHandler (closures (env w)))
    (constructed language path h (tick t w)).
Proof.
  intros P T F between tr o w' tr' E.
  set (worker := length (pool (env w))) in *.
  set (me := handshakeHandler (closures (env w))) in *.
  set (w1 := constructed language path h (tick t w)) in *.
  assert (Lk : lookup_worker worker (env w1) =
               Some (mkWorkerObj path [] (Some me) false [])).
  { unfold w1, worker, me. rewrite lookup_constructed_new.
    destruct h; try contradiction; reflexivity. }
  destruct (idle_deregistered worker language me between w1) as [S1 S2].
  { unfold is_registered. now rewrite Lk. }
  assert (Len : length (pool (env w1)) = S worker).
  { unfold w1. simpl. rewrite length_app. simpl. unfold worker. lia. }
  destruct (getOrCreateWorker_replaces language path
              (idle worker language me between w1) tr worker)
    with (o := o) (w' := w') (tr' := tr')
    as (T1 & _ & T3 & (obj & T4 & _ & T6) & _).
  - rewrite S1. apply constructed_workers.
  - rewrite S1. unfold w1. rewrite constructed_ready.
    destruct h; try contradiction; discriminate.
  - rewrite S1. exact P.
  - exact T.
  - rewrite S2, Len. lia.
  - exact E.
  - rewrite S2, Len in T3, T4. split; [exact T1|]. split; [exact T3|].
    exists obj. split; assumption.
Qed.

(** After the timeout the message listener is still registered: when the
    worker posts [ready] at last, the session becomes ready, and the next
    call hands out this worker instead of replacing it. *)
Lemma late_ready_after_timeout :
  exists w1 tr1,
    getOrCreateWorker "python" fresh_world [Elapse 30000] =
      (Rejected "Worker for python failed to initialize within timeout", w1, tr1) /\
    left_unready "python" 0 w1 /\
    getOrCreateWorker "python"
      (late 0 "python" (handshakeHandler 0) (Message ready) w1) [] =
      (Resolved 0, late 0 "python" (handshakeHandler 0) (Message ready) w1, []) /\
    length (pool (env (late 0 "python" (handshakeHandler 0) (Message ready) w1))) = 1.
Proof.
  eexists. eexists. split; [vm_compute; reflexivity|].
  split; [|split; reflexivity].
  split; [reflexivity|]. split; [reflexivity|].
  eexists. split; reflexivity.
Qed.

(** C3, amended: what a construction attempt ends as is decided by what
    comes first.  While less than 30000 ms have passed and the worker has
    posted neither [ready] nor [error] and no fault has occurred, the
    attempt is pending; the first [ready], [error] or fault within that
    time makes it, respectively, succeed with the new worker, fail with
    "Worker initialization failed" or fail with "Worker error", and what
    follows is not consumed; and once 30000 ms have passed without any of
    them the attempt fails with the timeout message, whatever follows.
    When the handshake ends by [ready], by [error] or by a fault, its
    message listener is no longer registered.  After every failure the
    session of the language still holds the new worker, not terminated
    and not ready.  After a failure by [error] or by a fault the next
    [getOrCreateWorker], whatever the worker does in the meantime,
    terminates it and constructs another worker. *)
Theorem C3_handshake_outcomes {H} (language path : string) (w : World H)
    (hs rest : list Stimulus) :
  session_ready language (self w) = false ->
  JSMap.get language (workerPaths (self w)) = Some path ->
  truthy path = true ->
  forallb indecisive hs = true ->
  let worker := length (pool (env w)) in
  let me := handshakeHandler (closures (env w)) in
  ((elapsed hs < handshake_timeout)%N ->
   (exists w', getOrCreateWorker language w hs = (Pending, w', [])) /\
   (exists w',
      getOrCreateWorker language w (hs ++ Message ready :: rest) =
        (Resolved worker, w', rest) /\
      JSMap.get language (workers (self w')) = Some worker /\
      JSMap.get language (workerReady (self w')) = Some true /\
      is_registered worker me (env w') = false) /\
   (forall data, exists w',
      getOrCreateWorker language w (hs ++ Message (error data) :: rest) =
        (Rejected ("Worker initialization failed: " +++ data), w', rest) /\
      is_registered worker me (env w') = false /\
      left_unready language worker w' /\
      replaced_by_next_call language worker me w') /\
   (forall message, exists w',
      getOrCreateWorker language w (hs ++ Fault message :: rest) =
        (Rejected ("Worker error: " +++ message), w', rest) /\
      is_registered worker me (env w') = false /\
      left_unready language worker w' /\
      replaced_by_next_call language worker me w')) /\
  ((handshake_timeout <= elapsed hs)%N ->
   exists w' tr',
     getOrCreateWorker language w (hs ++ rest) =
       (Rejected ("Worker for " +++ language +++
                  " failed to initialize within timeout"), w', tr') /\
     clock (env w') = (clock (env w) + handshake_timeout)%N /\
     left_unready language worker w').
Proof.
  intros R P T Q worker me.
  pose proof (retire_pool_length language w) as L.
  pose proof (retire_closures language w) as C.
  pose proof (retire_self language w) as S.
  assert (Lk : forall h t,
            lookup_worker worker
              (env (constructed language path h (tick t (retire language w)))) =
            Some (mkWorkerObj path (listeners_left h me) (Some me) false [])).
  { intros h t. unfold worker, me. rewrite <- L, <- C.
    apply lookup_constructed_new. }
  assert (G : forall h t,
            JSMap.get language
              (workers (self (constructed language path h
                                (tick t (retire language w))))) = Some worker).
  { intros h t. unfold worker. rewrite <- L. apply constructed_workers. }
  assert (U : forall h t,
            match h with hs_ready | hs_pending => False | _ => True end ->
            left_unready language worker
              (constructed language path h (tick t (retire language w)))).
  { intros h t F. split; [apply G|]. split.
    - rewrite constructed_ready. destruct h; try contradiction; reflexivity.
    - eexists. split; [apply Lk | reflexivity]. }
  assert (D : forall h t,
            match h with hs_pending | hs_timeout => False | _ => True end ->
            is_registered worker me
              (env (constructed language path h (tick t (retire language w)))) =
            false).
  { intros h t F. unfold is_registered. rewrite Lk.
    destruct h; try contradiction; reflexivity. }
  assert (N : forall h t,
            match h with hs_error _ | hs_fault _ => True | _ => False end ->
            replaced_by_next_call language worker me
              (constructed language path h (tick t (retire language w)))).
  { intros h t F. unfold worker, me. rewrite <- L, <- C.
    apply failed_worker_is_replaced; [now rewrite S | exact T | exact F]. }
  split.
  - intros B. split; [|split; [|split]].
    + eexists. now apply (getOrCreateWorker_undecided language path).
    + eexists. split; [|split; [|split]].
      * now apply (getOrCreateWorker_decided language path w hs _ rest hs_ready).
      * apply G.
      * apply (constructed_ready language path hs_ready).
      * now apply D.
    + intros data. eexists. split; [|split; [|split]].
      * now apply (getOrCreateWorker_decided language path w hs _ rest
                     (hs_error data)).
      * now apply D.
      * now apply U.
      * now apply N.
    + intros message. eexists. split; [|split; [|split]].
      * now apply (getOrCreateWorker_decided language path w hs _ rest
                     (hs_fault message)).
      * now apply D.
      * now apply U.
      * now apply N.
  - intros B.
    destruct (getOrCreateWorker_times_out_within language path w hs rest R P T Q B)
      as (tr' & E).
    eexists. exists tr'. split; [exact E|]. split.
    + simpl. unfold retire.
      now destruct (JSMap.get language (workers (self w))).
    + now apply U.
Qed.

(** ** Execution sessions *)

Lemma append_assoc (a b c : string) : (a +++ b) +++ c = a +++ (b +++ c).
Proof. induction a as [|x a IH]; simpl; [reflexivity | now rewrite IH]. Qed.

Lemma append_empty_r (a : string) : a +++ "" = a.
Proof. induction a as [|x a IH]; simpl; [reflexivity | now rewrite IH]. Qed.

Section Sessions.
Context {H : Type}.
Variable eventHandler : ExecutionEvent -> H -> H.

Lemma awaitExecution_quiet worker me :
  forall pre timer acc w rest,
    forallb quiet pre = true ->
    outlasts timer (elapsed pre) ->
    awaitExecution eventHandler worker me timer acc (pre ++ rest) w =
    awaitExecution eventHandler worker me (timer_after timer (elapsed pre))
      (mkOutput (out_stdout acc +++ stdout_of pre)
                (out_stderr acc +++ stderr_of pre) (out_success acc))
      rest (during eventHandler worker pre w).
Proof.
  induction pre as [|s pre IH]; intros timer acc w rest Q O.
  - simpl. rewrite !append_empty_r. destruct acc, timer; simpl;
      rewrite ?N.sub_0_r; reflexivity.
  - simpl in Q. apply andb_true_iff in Q as [Q1 Q2].
    destruct s as [e|message|d]; [destruct e| |]; try discriminate; simpl.
    + rewrite IH by assumption. simpl. now rewrite append_assoc.
    + rewrite IH by assumption. simpl. now rewrite append_assoc.
    + now rewrite IH.
    + now rewrite IH.
    + destruct timer as [remaining|]; simpl in *.
      * replace (d <? remaining)%N with true by (symmetry; apply N.ltb_lt; lia).
        rewrite IH by (assumption || (simpl; lia)). simpl.
        now replace (remaining - d - elapsed pre)%N
          with (remaining - (d + elapsed pre))%N by lia.
      * now rewrite IH.
Qed.

Lemma during_clock worker pre (w : World H) :
  clock (env (during eventHandler worker pre w)) = (clock (env w) + elapsed pre)%N.
Proof.
  revert w. induction pre as [|s pre IH]; intros w; simpl.
  - now rewrite N.add_0_r.
  - destruct s as [e|message|d]; [destruct e| |]; rewrite IH; simpl;
      try reflexivity.
    + unfold answer_input.
      destruct (match JSMap.get "python" (inputHandlers (self (forward eventHandler (input_request prompt) w))) with
                | Some handler => handler
                | None => defaultInputHandler (env (forward eventHandler (input_request prompt) w))
                end prompt); reflexivity.
    + now rewrite N.add_assoc.
Qed.

Lemma during_caller worker pre (w : World H) :
  caller (during eventHandler worker pre w) =
  fold_left (fun h e => eventHandler e h) (messages_of pre) (caller w).
Proof.
  revert w. induction pre as [|s pre IH]; intros w; simpl.
  - reflexivity.
  - destruct s as [e|message|d]; [destruct e| |]; rewrite IH; simpl;
      try reflexivity.
    unfold answer_input.
    destruct (match JSMap.get "python" (inputHandlers (self (forward eventHandler (input_request prompt) w))) with
              | Some handler => handler
              | None => defaultInputHandler (env (forward eventHandler (input_request prompt) w))
              end prompt); reflexivity.
Qed.
End Sessions.

(** ** [executeWithEvents], step by step *)

Section Coordination.
Context {H : Type}.
Variable eventHandler : ExecutionEvent -> H -> H.

Lemma executeOnWorker_started worker code timeout (w : World H) tr :
  executeOnWorker eventHandler worker code timeout w tr =
  awaitExecution eventHandler worker (executionHandler (closures (env w)))
    (start_timer timeout) (mkOutput "" "" false) tr (started worker code w).
Proof. reflexivity. Qed.

Lemma executeWithEvents_steps request options (w : World H) tr :
  executeWithEvents eventHandler request options w tr =
  match getOrCreateWorker (toLowerCase (language request)) w tr with
  | (Resolved worker, w1, tr1) =>
      conclude eventHandler (clock (env w))
        (executeOnWorker eventHandler worker (code request) (opt_timeout options)
           (install (toLowerCase (language request)) options w1) tr1)
  | r => conclude eventHandler (clock (env w))
           (let '(o, w1, tr1) := r in
            (match o with
             | Resolved _ => Pending
             | Rejected message => Rejected message
             | Pending => Pending
             end, w1, tr1))
  end.
Proof.
  unfold executeWithEvents, try_catch, bind, gets, ret, call, conclude, install,
    on_self, forward, in_self.
  destruct (getOrCreateWorker (toLowerCase (language request)) w tr)
    as [[[worker|message|] w1] tr1]; simpl; try reflexivity.
  destruct (opt_inputHandler options) as [handler|]; simpl;
    match goal with
    | |- context [executeOnWorker ?a ?b ?c ?d ?e ?f] =>
        destruct (executeOnWorker a b c d e f) as [[[out|message|] w2] tr2]
    end; reflexivity.
Qed.

Lemma executeWithEvents_failed_worker request options (w : World H) tr
    message w1 tr1 :
  getOrCreateWorker (toLowerCase (language request)) w tr =
    (Rejected message, w1, tr1) ->
  executeWithEvents eventHandler request options w tr =
  (Resolved (mkResult "" ("Execution failed: " +++ message) false
                      (Some (clock (env w1) - clock (env w))%N)),
   forward eventHandler (error message) w1, tr1).
Proof. intros E. now rewrite executeWithEvents_steps, E. Qed.

Lemma awaitExecution_rejections worker me :
  forall tr timer acc (w : World H) message w' tr',
    awaitExecution eventHandler worker me timer acc tr w =
      (Rejected message, w', tr') ->
    message = "Execution timeout" \/
    exists fault, message = "Worker error during execution: " +++ fault.
Proof.
  induction tr as [|s tr IH]; intros timer acc w message w' tr'; simpl.
  - discriminate.
  - destruct s as [e|fault|d].
    + destruct e; try apply IH; discriminate.
    + intros E. injection E as <- _ _. right. now exists fault.
    + destruct timer as [remaining|]; [|apply IH].
      destruct (d <? remaining)%N; [apply IH|].
      intros E. injection E as <- _ _. now left.
Qed.

Lemma getOrCreateWorker_rejections language (w : World H) tr message w1 tr1 :
  getOrCreateWorker language w tr = (Rejected message, w1, tr1) ->
  message = "No executor found for language: " +++ language \/
  (exists data, message = "Worker initialization failed: " +++ data) \/
  (exists fault, message = "Worker error: " +++ fault) \/
  message = "Worker for " +++ language +++ " failed to initialize within timeout".
Proof.
  intros E. destruct (session_ready language (self w)) eqn:S.
  - unfold session_ready in S.
    destruct (JSMap.get language (workers (self w))) as [wk|] eqn:G;
      [|discriminate].
    destruct (JSMap.get language (workerReady (self w))) as [[|]|] eqn:R;
      try discriminate.
    rewrite (getOrCreateWorker_reuse language w tr wk G R) in E. discriminate.
  - destruct (JSMap.get language (workerPaths (self w))) as [path|] eqn:P;
      [destruct (truthy path) eqn:T|].
    + destruct (getOrCreateWorker_constructs language path w tr S P T)
        as (h & t & tr' & E2 & _).
      rewrite E in E2.
      destruct h as [| |data|fault|]; simpl in E2; try discriminate;
        injection E2 as -> _ _.
      * right; left. now exists data.
      * right; right; left. now exists fault.
      * right; right; right. reflexivity.
    + rewrite getOrCreateWorker_no_executor in E by (auto; now rewrite P).
      injection E as <- _ _. now left.
    + rewrite getOrCreateWorker_no_executor in E by (auto; now rewrite P).
      injection E as <- _ _. now left.
Qed.
End Coordination.

(** ** An invariant: sessions refer to constructed workers and have entry points *)

Module Invariant.

Lemma holds_initially {H} (rt : Runtime) (h : H) :
  well_formed (mkWorld constructor rt h).
Proof. intros language worker []. Qed.

Lemma registerExecutor_keeps {H} language workerPath (w : World H) :
  truthy workerPath = true ->
  well_formed w ->
  well_formed (in_self (registerExecutor language workerPath) w).
Proof.
  intros T I l wk W. destruct (I l wk W) as (B & path & P & Tp).
  split; [exact B|]. simpl. rewrite JSMapFacts.get_set.
  destruct (String.eqb l (toLowerCase language)); eauto.
Qed.

Lemma setInputHandler_keeps {H} language handler (w : World H) :
  well_formed w -> well_formed (in_self (setInputHandler language handler) w).
Proof. intros I l wk W. exact (I l wk W). Qed.

Lemma terminate_keeps {H} (w : World H) : well_formed (terminate w).
Proof. intros l wk []. Qed.

Lemma terminateLanguageWorker_keeps {H} language (w : World H) :
  well_formed w -> well_formed (terminateLanguageWorker language w).
Proof.
  intros I l wk. unfold terminateLanguageWorker.
  destruct (JSMap.get (toLowerCase language) (workers (self w))); simpl.
  - intros W. apply JSMapFacts.In_delete in W. destruct (I l wk W) as (B & P).
    split; [|exact P]. simpl. unfold worker_terminate, on_worker. simpl.
    now rewrite length_update_nth.
  - apply I.
Qed.

Lemma retire_keeps {H} language (w : World H) :
  well_formed w -> well_formed (retire language w).
Proof.
  intros I l wk. rewrite retire_self, retire_pool_length. apply I.
Qed.

Lemma getOrCreateWorker_keeps {H} language (w : World H) tr o w' tr' :
  getOrCreateWorker language w tr = (o, w', tr') ->
  well_formed w -> well_formed w'.
Proof.
  intros E I. destruct (session_ready language (self w)) eqn:S.
  - unfold session_ready in S.
    destruct (JSMap.get language (workers (self w))) as [wk|] eqn:G;
      [|discriminate].
    destruct (JSMap.get language (workerReady (self w))) as [[|]|] eqn:R;
      try discriminate.
    rewrite (getOrCreateWorker_reuse language w tr wk G R) in E.
    now injection E as _ <- _.
  - destruct (JSMap.get language (workerPaths (self w))) as [path|] eqn:P;
      [destruct (truthy path) eqn:T|].
    + destruct (getOrCreateWorker_constructs language path w tr S P T)
        as (h & t & tr2 & E2 & _).
      rewrite E in E2. injection E2 as _ -> _.
      intros l wk W. simpl in *. rewrite length_app. simpl.
      rewrite retire_self, retire_pool_length in *.
      apply JSMapFacts.In_set in W. destruct W as [W|W].
      * injection W as -> ->. split; [lia|]. eauto.
      * destruct (I l wk W) as (B & Pl). split; [lia | exact Pl].
    + rewrite getOrCreateWorker_no_executor in E by (auto; now rewrite P).
      injection E as _ <- _. now apply retire_keeps.
    + rewrite getOrCreateWorker_no_executor in E by (auto; now rewrite P).
      injection E as _ <- _. now apply retire_keeps.
Qed.

Section Execution.
Context {H : Type}.
Variable eventHandler : ExecutionEvent -> H -> H.

Lemma same_sessions_well_formed (w w' : World H) :
  same_sessions w w' -> well_formed w -> well_formed w'.
Proof. intros [S L] I l wk. rewrite S, L. apply I. Qed.

Lemma answer_input_same worker prompt (w : World H) :
  same_sessions w (answer_input worker prompt w).
Proof.
  unfold answer_input, same_sessions.
  destruct (match JSMap.get "python" (inputHandlers (self w)) with
            | Some handler => handler
            | None => defaultInputHandler (env w)
            end prompt); simpl; split; auto; apply length_update_nth.
Qed.

Lemma awaitExecution_same worker me :
  forall tr timer acc (w : World H) o w' tr',
    awaitExecution eventHandler worker me timer acc tr w = (o, w', tr') ->
    same_sessions w w'.
Proof.
  unfold same_sessions.
  induction tr as [|s tr IH]; intros timer acc w o w' tr'; simpl.
  - intros E. injection E as _ <- _. auto.
  - destruct s as [e|fault|d].
    + destruct e; intros E.
      * exact (IH _ _ _ _ _ _ E).
      * exact (IH _ _ _ _ _ _ E).
      * apply IH in E. destruct E as [E1 E2]. rewrite E1, E2.
        apply (answer_input_same worker prompt
                 (mkWorld (self w) (env w)
                    (eventHandler (input_request prompt) (caller w)))).
      * exact (IH _ _ _ _ _ _ E).
      * injection E as _ <- _. simpl. split; auto. apply length_update_nth.
      * injection E as _ <- _. simpl. split; auto. apply length_update_nth.
    + intros E. injection E as _ <- _. simpl. split; auto.
      apply length_update_nth.
    + destruct timer as [remaining|].
      * destruct (d <? remaining)%N; intros E.
        -- now apply IH in E.
        -- injection E as _ <- _. auto.
      * intros E. now apply IH in E.
Qed.

Lemma executeWithEvents_keeps request options (w : World H) tr o w' tr' :
  executeWithEvents eventHandler request options w tr = (o, w', tr') ->
  well_formed w -> well_formed w'.
Proof.
  rewrite executeWithEvents_steps. intros E I.
  destruct (getOrCreateWorker (toLowerCase (language request)) w tr)
    as [[o1 w1] tr1] eqn:G.
  pose proof (getOrCreateWorker_keeps _ _ _ _ _ _ G I) as I1.
  destruct o1 as [worker|message|]; simpl in E.
  - rewrite executeOnWorker_started in E.
    match type of E with
    | conclude _ _ ?r = _ => destruct r as [[o2 w2] tr2] eqn:X
    end.
    apply awaitExecution_same in X.
    assert (I2 : well_formed w2).
    { apply (same_sessions_well_formed _ _ X).
      intros l wk W. unfold started. simpl. rewrite !length_update_nth.
      unfold install in *. destruct (opt_inputHandler options); apply I1; exact W. }
    destruct o2; simpl in E; injection E as _ <- _; exact I2.
  - injection E as _ <- _. exact I1.
  - injection E as _ <- _. exact I1.
Qed.
End Execution.
End Invariant.

(** ** Failures reach the caller as a failed result *)

Lemma no_entry_point_no_session {H} language (w : World H) :
  well_formed w ->
  JSMap.get language (workerPaths (self w)) = None ->
  JSMap.get language (workers (self w)) = None.
Proof.
  intros I P.
  destruct (JSMap.get language (workers (self w))) as [worker|] eqn:G;
    [|reflexivity].
  apply JSMapFacts.get_In in G. destruct (I _ _ G) as (_ & path & P' & _).
  congruence.
Qed.

(** C4: when the language of a request has no entry point,
    [executeWithEvents] calls the event handler with an error event
    carrying "No executor found for language: L" and resolves with
    success false, an empty stdout, and that message in stderr (after the
    words "Execution failed: "); the same holds for every failure of
    [getOrCreateWorker], with its message. *)
Theorem C4_registry_failure_is_reported {H}
    (eventHandler : ExecutionEvent -> H -> H) (request : ExecutionRequest)
    (options : ExecutorOptions) (w : World H) (tr : list Stimulus) :
  (well_formed w ->
   JSMap.get (toLowerCase (language request)) (workerPaths (self w)) = None ->
   executeWithEvents eventHandler request options w tr =
   (Resolved (mkResult ""
                ("Execution failed: " +++ "No executor found for language: "
                                      +++ toLowerCase (language request))
                false (Some 0%N)),
    forward eventHandler
      (error ("No executor found for language: " +++ toLowerCase (language request)))
      w,
    tr)) /\
  (forall message w1 tr1,
     getOrCreateWorker (toLowerCase (language request)) w tr =
       (Rejected message, w1, tr1) ->
     executeWithEvents eventHandler request options w tr =
     (Resolved (mkResult "" ("Execution failed: " +++ message) false
                         (Some (clock (env w1) - clock (env w))%N)),
      forward eventHandler (error message) w1, tr1)).
Proof.
  split.
  - intros I P.
    pose proof (no_entry_point_no_session _ _ I P) as G.
    rewrite (executeWithEvents_failed_worker eventHandler request options w tr
               ("No executor found for language: " +++ toLowerCase (language request))
               w tr).
    + now rewrite N.sub_diag.
    + rewrite getOrCreateWorker_no_executor.
      * unfold retire. now rewrite G.
      * unfold session_ready. now rewrite G.
      * now rewrite P.
  - intros message w1 tr1. apply executeWithEvents_failed_worker.
Qed.

(** C9: [executeWithEvents] never rejects.  Whatever fails inside it
    (no executor for the language, a failed or timed-out handshake, a
    runtime fault on the worker during the execution, the execution
    timeout: these are all the rejections of [getOrCreateWorker] and of
    [executeOnWorker]), the event handler is called with an error event
    carrying the failure message, and the call resolves with success
    false and stderr "Execution failed: " followed by that message. *)
Theorem C9_executeWithEvents_never_rejects {H}
    (eventHandler : ExecutionEvent -> H -> H) (request : ExecutionRequest)
    (options : ExecutorOptions) (w : World H) (tr : list Stimulus) :
  (forall message w' tr',
     executeWithEvents eventHandler request options w tr <>
     (Rejected message, w', tr')) /\
  (forall message w1 tr1,
     getOrCreateWorker (toLowerCase (language request)) w tr =
       (Rejected message, w1, tr1) ->
     (message = "No executor found for language: " +++ toLowerCase (language request) \/
      (exists data, message = "Worker initialization failed: " +++ data) \/
      (exists fault, message = "Worker error: " +++ fault) \/
      message = "Worker for " +++ toLowerCase (language request) +++
                " failed to initialize within timeout") /\
     executeWithEvents eventHandler request options w tr =
     (Resolved (mkResult "" ("Execution failed: " +++ message) false
                         (Some (clock (env w1) - clock (env w))%N)),
      forward eventHandler (error message) w1, tr1)) /\
  (forall worker w1 tr1 message w2 tr2,
     getOrCreateWorker (toLowerCase (language request)) w tr =
       (Resolved worker, w1, tr1) ->
     executeOnWorker eventHandler worker (code request) (opt_timeout options)
       (install (toLowerCase (language request)) options w1) tr1 =
       (Rejected message, w2, tr2) ->
     (message = "Execution timeout" \/
      exists fault, message = "Worker error during execution: " +++ fault) /\
     executeWithEvents eventHandler request options w tr =
     (Resolved (mkResult "" ("Execution failed: " +++ message) false
                         (Some (clock (env w2) - clock (env w))%N)),
      forward eventHandler (error message) w2, tr2)).
Proof.
  split; [|split].
  - intros message w' tr'. rewrite executeWithEvents_steps.
    destruct (getOrCreateWorker (toLowerCase (language request)) w tr)
      as [[[worker|m|] w1] tr1]; simpl; try discriminate.
    match goal with
    | |- conclude _ _ ?r <> _ => destruct r as [[[out|m|] w2] tr2]
    end; simpl; discriminate.
  - intros message w1 tr1 E. split.
    + eapply getOrCreateWorker_rejections; eassumption.
    + now apply executeWithEvents_failed_worker.
  - intros worker w1 tr1 message w2 tr2 E X. split.
    + rewrite executeOnWorker_started in X.
      eapply awaitExecution_rejections; eassumption.
    + now rewrite executeWithEvents_steps, E, X.
Qed.

(** ** Terminal events *)

Section Terminal.
Context {H : Type}.
Variable eventHandler : ExecutionEvent -> H -> H.

Lemma finished_caller request options worker pre e (w1 : World H) :
  caller (finished eventHandler request options worker pre e w1) =
  fold_left (fun h e => eventHandler e h) (messages_of pre ++ [e]) (caller w1).
Proof.
  unfold finished. simpl. rewrite during_caller, fold_left_app. simpl.
  unfold install. now destruct (opt_inputHandler options).
Qed.

Lemma finished_clock request options worker pre e (w1 : World H) :
  clock (env (finished eventHandler request options worker pre e w1)) =
  (clock (env w1) + elapsed pre)%N.
Proof.
  unfold finished. simpl. rewrite during_clock.
  unfold install. now destruct (opt_inputHandler options).
Qed.

Lemma executeWithEvents_done request options (w : World H) tr worker w1 pre rest :
  getOrCreateWorker (toLowerCase (language request)) w tr =
    (Resolved worker, w1, pre ++ Message done :: rest) ->
  forallb quiet pre = true ->
  outlasts (start_timer (opt_timeout options)) (elapsed pre) ->
  executeWithEvents eventHandler request options w tr =
  (Resolved (mkResult (stdout_of pre) (stderr_of pre) true
               (Some (clock (env w1) + elapsed pre - clock (env w))%N)),
   finished eventHandler request options worker pre done w1, rest).
Proof.
  intros E Q O.
  rewrite executeWithEvents_steps, E, executeOnWorker_started.
  rewrite awaitExecution_quiet by assumption. simpl.
  now rewrite <- (finished_clock request options worker pre done w1).
Qed.

Lemma executeWithEvents_error request options (w : World H) tr worker w1 pre
    data rest :
  getOrCreateWorker (toLowerCase (language request)) w tr =
    (Resolved worker, w1, pre ++ Message (error data) :: rest) ->
  forallb quiet pre = true ->
  outlasts (start_timer (opt_timeout options)) (elapsed pre) ->
  executeWithEvents eventHandler request options w tr =
  (Resolved (mkResult (stdout_of pre) (stderr_of pre +++ data) false
               (Some (clock (env w1) + elapsed pre - clock (env w))%N)),
   finished eventHandler request options worker pre (error data) w1, rest).
Proof.
  intros E Q O.
  rewrite executeWithEvents_steps, E, executeOnWorker_started.
  rewrite awaitExecution_quiet by assumption. simpl.
  now rewrite <- (finished_clock request options worker pre (error data) w1).
Qed.
End Terminal.

(** C6: the data of the stdout events and of the stderr events that a
    worker emits before [done] are concatenated, each stream in emission
    order, and [done] resolves the execution with these two strings and
    success true; every event, [done] included, has been passed to the
    event handler in emission order.  (At stdout "a", stdout "b", done:
    stdout "ab", stderr "", success true.) *)
Theorem C6_done_returns_accumulated_output {H}
    (eventHandler : ExecutionEvent -> H -> H) (request : ExecutionRequest)
    (options : ExecutorOptions) (w : World H) (tr : list Stimulus)
    (worker : Worker) (w1 : World H) (pre rest : list Stimulus) :
  getOrCreateWorker (toLowerCase (language request)) w tr =
    (Resolved worker, w1, pre ++ Message done :: rest) ->
  forallb quiet pre = true ->
  outlasts (start_timer (opt_timeout options)) (elapsed pre) ->
  exists w',
    executeWithEvents eventHandler request options w tr =
      (Resolved (mkResult (stdout_of pre) (stderr_of pre) true
                          (Some (clock (env w') - clock (env w))%N)),
       w', rest) /\
    caller w' =
      fold_left (fun h e => eventHandler e h) (messages_of pre ++ [done])
                (caller w1) /\
    clock (env w') = (clock (env w1) + elapsed pre)%N.
Proof.
  intros E Q O. eexists. split; [|split].
  - rewrite finished_clock.
    exact (executeWithEvents_done eventHandler request options w tr worker w1
             pre rest E Q O).
  - apply finished_caller.
  - apply finished_clock.
Qed.

(** C5: when a worker emits [error data], the execution resolves (it does
    not reject) with success false, the stdout accumulated so far, and
    the stderr accumulated so far followed by [data]; the error event has
    been passed to the event handler like every event before it.  (At
    error "boom" alone: success false and stderr "boom".) *)
Theorem C5_error_event_resolves_with_failure {H}
    (eventHandler : ExecutionEvent -> H -> H) (request : ExecutionRequest)
    (options : ExecutorOptions) (w : World H) (tr : list Stimulus)
    (worker : Worker) (w1 : World H) (pre rest : list Stimulus) (data : string) :
  getOrCreateWorker (toLowerCase (language request)) w tr =
    (Resolved worker, w1, pre ++ Message (error data) :: rest) ->
  forallb quiet pre = true ->
  outlasts (start_timer (opt_timeout options)) (elapsed pre) ->
  exists w',
    executeWithEvents eventHandler request options w tr =
      (Resolved (mkResult (stdout_of pre) (stderr_of pre +++ data) false
                          (Some (clock (env w') - clock (env w))%N)),
       w', rest) /\
    caller w' =
      fold_left (fun h e => eventHandler e h) (messages_of pre ++ [error data])
                (caller w1) /\
    clock (env w') = (clock (env w1) + elapsed pre)%N.
Proof.
  intros E Q O. eexists. split; [|split].
  - rewrite finished_clock.
    exact (executeWithEvents_error eventHandler request options w tr worker w1
             pre data rest E Q O).
  - apply finished_caller.
  - apply finished_clock.
Qed.

(** ** The execution timeout *)

Section Timeout.
Context {H : Type}.
Variable eventHandler : ExecutionEvent -> H -> H.

Lemma awaitExecution_pending worker me pre timer acc (w : World H) :
  forallb quiet pre = true ->
  outlasts timer (elapsed pre) ->
  awaitExecution eventHandler worker me timer acc pre w =
  (Pending, during eventHandler worker pre w, []).
Proof.
  intros Q O.
  rewrite <- (app_nil_r pre) at 1.
  now rewrite awaitExecution_quiet.
Qed.

Lemma awaitExecution_timeout worker me :
  forall tr remaining acc (w : World H),
    forallb quiet tr = true ->
    (0 < remaining <= elapsed tr)%N ->
    exists w' tr',
      awaitExecution eventHandler worker me (Some remaining) acc tr w =
        (Rejected "Execution timeout", w', tr') /\
      clock (env w') = (clock (env w) + remaining)%N.
Proof.
  induction tr as [|s tr IH]; intros remaining acc w Q B; simpl in *.
  - lia.
  - apply andb_true_iff in Q as [Q1 Q2].
    destruct s as [e|fault|d]; [destruct e| |]; try discriminate; simpl;
      try (match goal with
           | |- exists w' tr',
                  awaitExecution _ _ _ _ ?acc' _ ?w0 = _ /\ _ =>
               destruct (IH remaining acc' w0 Q2 B) as (w' & tr' & E & C);
               exists w', tr'; split; [exact E | exact C]
           end).
    + destruct (IH remaining acc
                  (answer_input worker prompt
                     (mkWorld (self w) (env w)
                        (eventHandler (input_request prompt) (caller w)))) Q2 B)
        as (w' & tr' & E & C).
      exists w', tr'. split; [exact E|]. rewrite C.
      unfold answer_input.
      match goal with
      | |- context [match ?h prompt with _ => _ end] => destruct (h prompt)
      end; reflexivity.
    + destruct (d <? remaining)%N eqn:D.
      * apply N.ltb_lt in D.
        destruct (IH (remaining - d)%N acc (tick d w) Q2) as (w' & tr' & E & C);
          [lia|].
        exists w', tr'. split; [exact E|]. rewrite C. simpl. lia.
      * eexists. eexists. split; reflexivity.
Qed.
End Timeout.

Lemma setTimeout_delay_small (ms : N) :
  (ms < 2147483648)%N -> setTimeout_delay ms = ms.
Proof.
  intros B. unfold setTimeout_delay.
  rewrite N.mod_small by lia.
  apply N.ltb_lt in B. now rewrite B.
Qed.

(** A timeout of 2^31 ms is a timer that fires at the first occasion,
    long before 2^31 ms have passed. *)
Lemma timeout_beyond_31_bits_fires_at_once :
  exists w' tr',
    executeWithEvents record_event
      (mkRequest "while True: pass" "python" None)
      (mkOptions (Some 2147483648%N) None) fresh_world
      [Message ready; Elapse 1] =
    (Resolved (mkResult "" "Execution failed: Execution timeout" false (Some 0%N)),
     w', tr').
Proof.
  eexists. eexists. vm_compute. reflexivity.
Qed.

(** C2, as stated, fails.  With [options.timeout = 5] and a worker that
    stays silent after some output, the call does not reject: the
    rejection of the execution session is caught, and the call resolves,
    5 ms after the start, with a failed result. *)
Lemma C2_timeout_is_not_a_rejection :
  exists w' tr',
    executeWithEvents record_event
      (mkRequest "while True: pass" "python" (Some 5%N))
      (mkOptions (Some 5%N) None) fresh_world
      [Message ready; Message (stdout "partial"); Elapse 5] =
    (Resolved (mkResult "" "Execution failed: Execution timeout" false (Some 5%N)),
     w', tr').
Proof.
  eexists. eexists. vm_compute. reflexivity.
Qed.

(** C2, amended: when the options of a call supply a timeout [T] with
    [0 < T < 2^31] (the range in which the timer of the runtime waits
    for [T] ms) and the worker, once ready, emits no terminal event and
    no fault occurs, the execution session stays pending as long as less
    than [T] ms have passed, and rejects with "Execution timeout" exactly
    [T] ms after its start; [executeWithEvents] catches this rejection,
    calls the event handler with an error event and resolves with success
    false, an empty stdout and stderr "Execution failed: Execution
    timeout". *)
Theorem C2_timeout_after_T {H}
    (eventHandler : ExecutionEvent -> H -> H) (request : ExecutionRequest)
    (options : ExecutorOptions) (w : World H) (tr : list Stimulus)
    (worker : Worker) (w1 : World H) (tr1 : list Stimulus) (T : N) :
  getOrCreateWorker (toLowerCase (language request)) w tr =
    (Resolved worker, w1, tr1) ->
  opt_timeout options = Some T ->
  (0 < T < 2147483648)%N ->
  forallb quiet tr1 = true ->
  ((elapsed tr1 < T)%N ->
   exists w2,
     executeOnWorker eventHandler worker (code request) (opt_timeout options)
       (install (toLowerCase (language request)) options w1) tr1 =
       (Pending, w2, []) /\
     executeWithEvents eventHandler request options w tr = (Pending, w2, [])) /\
  ((T <= elapsed tr1)%N ->
   exists w2 tr2,
     executeOnWorker eventHandler worker (code request) (opt_timeout options)
       (install (toLowerCase (language request)) options w1) tr1 =
       (Rejected "Execution timeout", w2, tr2) /\
     clock (env w2) = (clock (env w1) + T)%N /\
     executeWithEvents eventHandler request options w tr =
       (Resolved (mkResult "" "Execution failed: Execution timeout" false
                           (Some (clock (env w1) + T - clock (env w))%N)),
        forward eventHandler (error "Execution timeout") w2, tr2)).
Proof.
  intros E O P Q.
  assert (S : start_timer (opt_timeout options) = Some T).
  { rewrite O. simpl. destruct (T =? 0)%N eqn:Z.
    - apply N.eqb_eq in Z. lia.
    - now rewrite setTimeout_delay_small by lia. }
  split; intros B.
  - eexists. rewrite executeWithEvents_steps, E, executeOnWorker_started.
    rewrite awaitExecution_pending; [split; reflexivity|exact Q|].
    rewrite S. exact B.
  - rewrite executeWithEvents_steps, E, executeOnWorker_started, S.
    destruct (awaitExecution_timeout eventHandler worker
                (executionHandler (closures (env (install (toLowerCase (language request)) options w1))))
                tr1 T (mkOutput "" "" false)
                (started worker (code request)
                   (install (toLowerCase (language request)) options w1)) Q)
      as (w2 & tr2 & X & C); [lia|].
    exists w2, tr2. rewrite X. simpl.
    assert (C' : clock (env w2) = (clock (env w1) + T)%N).
    { rewrite C. unfold install. now destruct (opt_inputHandler options). }
    rewrite C'. repeat split; reflexivity.
Qed.

(** ** Input requests *)

Section Input.
Context {H : Type}.

Lemma answer_input_posts worker prompt (w : World H) obj :
  lookup_worker worker (env w) = Some obj ->
  lookup_worker worker (env (answer_input worker prompt w)) =
  Some (mkWorkerObj (scriptURL obj) (messageListeners obj) (onerror obj)
          (terminated obj)
          (inbox obj ++ [input_response
                           match answering_handler w prompt with
                           | answers value => value
                           | fails _ => ""
                           end])).
Proof.
  intros L. unfold answer_input. fold (answering_handler w).
  destruct (answering_handler w prompt); simpl;
    unfold postMessage; rewrite lookup_on_worker_eq, L; reflexivity.
Qed.
End Input.

(** C1 fails on the code: the handler is looked up under the constant
    "python", not under the language of the execution.  A javascript
    execution whose handler (registered with [setInputHandler], or passed
    in the options) answers "Alice" gets the answer of the default
    handler, here the empty string because there is no window; and a
    handler registered for python answers the javascript request. *)
Theorem C1_input_handler_is_looked_up_under_python :
  posted (executeWithEvents record_event ask_name no_options
            (mkWorld (setInputHandler "javascript" alice constructor)
                     fresh_runtime [])
            asks_then_ends) =
    Some [run_code "name = prompt('name?')"; input_response ""] /\
  posted (executeWithEvents record_event ask_name (mkOptions None (Some alice))
            fresh_world asks_then_ends) =
    Some [run_code "name = prompt('name?')"; input_response ""] /\
  posted (executeWithEvents record_event ask_name no_options
            (mkWorld (setInputHandler "python" alice constructor)
                     fresh_runtime [])
            asks_then_ends) =
    Some [run_code "name = prompt('name?')"; input_response "Alice"].
Proof. repeat split. Qed.

(** ** The theorems at concrete inputs *)

(** stdout "a", stdout "b", done on a fresh instance. *)
Lemma C6_done_returns_accumulated_output_witness :
  exists w',
    executeWithEvents record_event print_a_b no_options fresh_world
      [Message ready; Message (stdout "a"); Message (stdout "b"); Message done] =
      (Resolved (mkResult "ab" "" true (Some (clock (env w') - 0)%N)), w', []) /\
    caller w' = [stdout "a"; stdout "b"; done] /\
    clock (env w') = 0%N.
Proof.
  exact (C6_done_returns_accumulated_output record_event print_a_b no_options
           fresh_world
           [Message ready; Message (stdout "a"); Message (stdout "b"); Message done]
           0 (constructed "python" python_path hs_ready fresh_world)
           [Message (stdout "a"); Message (stdout "b")] []
           eq_refl eq_refl I).
Defined.

(** error "boom" on a fresh instance. *)
Lemma C5_error_event_resolves_with_failure_witness :
  exists w',
    executeWithEvents record_event print_a_b no_options fresh_world
      [Message ready; Message (error "boom")] =
      (Resolved (mkResult "" "boom" false (Some (clock (env w') - 0)%N)), w', []) /\
    caller w' = [error "boom"] /\
    clock (env w') = 0%N.
Proof.
  exact (C5_error_event_resolves_with_failure record_event print_a_b no_options
           fresh_world [Message ready; Message (error "boom")]
           0 (constructed "python" python_path hs_ready fresh_world)
           [] [] "boom" eq_refl eq_refl I).
Defined.

(** A timeout of 5 ms, reached after some output. *)
Lemma C2_timeout_after_T_witness :
  exists w2 tr2,
    executeWithEvents record_event print_a_b (mkOptions (Some 5%N) None)
      fresh_world [Message ready; Message (stdout "partial"); Elapse 2; Elapse 4] =
    (Resolved (mkResult "" "Execution failed: Execution timeout" false (Some 5%N)),
     forward record_event (error "Execution timeout") w2, tr2) /\
    clock (env w2) = 5%N.
Proof.
  destruct (C2_timeout_after_T record_event print_a_b (mkOptions (Some 5%N) None)
              fresh_world
              [Message ready; Message (stdout "partial"); Elapse 2; Elapse 4]
              0 (constructed "python" python_path hs_ready fresh_world)
              [Message (stdout "partial"); Elapse 2; Elapse 4] 5%N
              eq_refl eq_refl (conj eq_refl eq_refl) eq_refl) as [_ F].
  destruct F as (w2 & tr2 & _ & C & E).
  - vm_compute. discriminate.
  - exists w2, tr2. split; [exact E | exact C].
Defined.

(** A handshake that fails on a fresh instance, after the worker has
    written something and 100 ms have passed. *)
Lemma C3_handshake_outcomes_witness :
  exists w',
    getOrCreateWorker "python" fresh_world
      [Message (stdout "loading"); Elapse 100; Message (error "no pyodide");
       Message done] =
      (Rejected "Worker initialization failed: no pyodide", w', [Message done]) /\
    is_registered 0 (handshakeHandler 0) (env w') = false /\
    left_unready "python" 0 w' /\
    replaced_by_next_call "python" 0 (handshakeHandler 0) w'.
Proof.
  destruct (C3_handshake_outcomes "python" python_path fresh_world
              [Message (stdout "loading"); Elapse 100] [Message done]
              eq_refl eq_refl eq_refl eq_refl) as [F _].
  destruct (F eq_refl) as (_ & _ & E & _).
  exact (E "no pyodide").
Defined.

(** Reuse after a successful construction; replacement of the session
    left by a failed handshake. *)
Lemma C7_reuse_and_replacement_witness :
  getOrCreateWorker "python"
    (constructed "python" python_path hs_ready fresh_world) [] =
    (Resolved 0, constructed "python" python_path hs_ready fresh_world, []) /\
  (forall o w' tr',
     getOrCreateWorker "python" after_failed_handshake [Message ready] =
       (o, w', tr') ->
     is_terminated 0 (env w') /\
     JSMap.get "python" (workers (self w')) = Some 1) /\
  getOrCreateWorker "python"
    (in_self (registerExecutor "python" "") after_failed_handshake)
    [Message ready] =
    (Rejected "No executor found for language: python",
     in_env (worker_terminate 0)
       (in_self (registerExecutor "python" "") after_failed_handshake),
     [Message ready]).
Proof.
  split; [|split].
  - destruct (C7_reuse_and_replacement "python" fresh_world [Message ready])
      as (_ & F & _).
    apply (F 0 _ [] eq_refl).
  - intros o w' tr' E.
    destruct (C7_reuse_and_replacement "python" after_failed_handshake
                [Message ready]) as (_ & _ & F).
    destruct (F 0) as (F' & _).
    + reflexivity.
    + discriminate.
    + simpl. lia.
    + destruct (F' python_path eq_refl eq_refl o w' tr' E) as (A & _ & B & _).
      split; [exact A | exact B].
  - destruct (C7_reuse_and_replacement "python"
                (in_self (registerExecutor "python" "") after_failed_handshake)
                [Message ready]) as (_ & _ & F).
    destruct (F 0) as (_ & F').
    + reflexivity.
    + discriminate.
    + simpl. lia.
    + destruct F' as (A & _); [right; reflexivity | exact A].
Defined.

(** A language without an entry point, and a handshake that fails. *)
Lemma C4_registry_failure_is_reported_witness :
  executeWithEvents record_event (mkRequest "fn main() {}" "Rust" None)
    no_options fresh_world [] =
    (Resolved (mkResult "" "Execution failed: No executor found for language: rust"
                        false (Some 0%N)),
     forward record_event (error "No executor found for language: rust") fresh_world,
     []) /\
  executeWithEvents record_event print_a_b no_options fresh_world
    [Message (error "no pyodide")] =
    (Resolved (mkResult ""
                 "Execution failed: Worker initialization failed: no pyodide"
                 false (Some 0%N)),
     forward record_event (error "Worker initialization failed: no pyodide")
       after_failed_handshake,
     []).
Proof.
  split.
  - destruct (C4_registry_failure_is_reported record_event
                (mkRequest "fn main() {}" "Rust" None) no_options fresh_world [])
      as [F _].
    apply F; [apply Invariant.holds_initially | reflexivity].
  - destruct (C4_registry_failure_is_reported record_event print_a_b no_options
                fresh_world [Message (error "no pyodide")]) as [_ F].
    apply (F "Worker initialization failed: no pyodide" after_failed_handshake []).
    reflexivity.
Defined.

(** A fault of the worker during the execution. *)
Lemma C9_executeWithEvents_never_rejects_witness :
  executeWithEvents record_event print_a_b no_options fresh_world
    [Message ready; Message (stdout "a"); Fault "out of memory"] =
  (Resolved (mkResult ""
               "Execution failed: Worker error during execution: out of memory"
               false (Some 0%N)),
   forward record_event (error "Worker error during execution: out of memory")
     (snd (fst (executeOnWorker record_event 0 (code print_a_b) None
                  (constructed "python" python_path hs_ready fresh_world)
                  [Message (stdout "a"); Fault "out of memory"]))),
   []).
Proof.
  destruct (C9_executeWithEvents_never_rejects record_event print_a_b no_options
              fresh_world
              [Message ready; Message (stdout "a"); Fault "out of memory"])
    as (_ & _ & F).
  apply (F 0 (constructed "python" python_path hs_ready fresh_world)
           [Message (stdout "a"); Fault "out of memory"]
           "Worker error during execution: out of memory" _ [] eq_refl eq_refl).
Defined.

(** [terminate()] on an instance with one session. *)
Lemma C8_terminate_clears_sessions_witness :
  is_terminated 0
    (env (terminate (constructed "python" python_path hs_ready fresh_world))) /\
  getSupportedLanguages
    (self (terminate (constructed "python" python_path hs_ready fresh_world))) =
    default_languages.
Proof.
  destruct (C8_terminate_clears_sessions
              (constructed "python" python_path hs_ready fresh_world))
    as (A & _ & _ & _ & _ & B & _).
  split.
  - apply (A (Invariant.getOrCreateWorker_keeps "python" fresh_world
                [Message ready] _ _ _ eq_refl
                (Invariant.holds_initially fresh_runtime []))
             "python" 0).
    simpl. auto.
  - exact B.
Defined.

(** [execute] returns the same result; when the session fails, the empty
    stdout of the failed result gives way to what the event handler of
    [execute] has accumulated. *)
Example execute_print_a_b :
  fst (fst (execute print_a_b fresh_world
              [Message ready; Message (stdout "a"); Message (stdout "b");
               Message done])) =
  Resolved (mkResult "ab" "" true (Some 0%N)).
Proof. reflexivity. Qed.

Example execute_fault_keeps_partial_stdout :
  fst (fst (execute print_a_b fresh_world
              [Message ready; Message (stdout "partial"); Fault "out of memory"])) =
  Resolved (mkResult "partial"
              "Execution failed: Worker error during execution: out of memory"
              false (Some 0%N)).
Proof. reflexivity. Qed.

(** * Further properties *)

(** ** Registering executors *)

Lemma lower_ascii_idempotent (c : ascii) :
  lower_ascii (lower_ascii c) = lower_ascii c.
Proof.
  pose proof (nat_ascii_bounded c) as B.
  rewrite <- (ascii_nat_embedding c).
  generalize dependent (nat_of_ascii c). intros n B.
  rewrite (lower_ascii_of_nat n B).
  destruct ((65 <=? n)%nat && (n <=? 90)%nat)%bool eqn:U.
  - apply andb_true_iff in U as [U1 U2]. apply Nat.leb_le in U1, U2.
    apply lower_ascii_lower. lia.
  - now rewrite (lower_ascii_of_nat n B), U.
Qed.

Lemma toLowerCase_idempotent (s : string) :
  toLowerCase (toLowerCase s) = toLowerCase s.
Proof.
  induction s as [|c s IH]; simpl; [reflexivity|].
  now rewrite lower_ascii_idempotent, IH.
Qed.

Module JSMapMore.
Section Facts.
Context {V : Type}.
Implicit Types (m : JSMap.t V) (k : string) (v : V).

Lemma has_set k k' v m :
  JSMap.has k' (JSMap.set k v m) = (String.eqb k' k || JSMap.has k' m)%bool.
Proof.
  unfold JSMap.has. rewrite JSMapFacts.get_set.
  now destruct (String.eqb k' k).
Qed.

Lemma keys_set k v m :
  JSMap.keys (JSMap.set k v m) =
  if JSMap.has k m then JSMap.keys m else JSMap.keys m ++ [k].
Proof.
  unfold JSMap.has, JSMap.keys. induction m as [|[k' v'] m IH]; simpl.
  - reflexivity.
  - destruct (String.eqb k k') eqn:E; simpl.
    + apply String.eqb_eq in E. now subst.
    + rewrite IH. now destruct (JSMap.get k m).
Qed.

Lemma get_delete_neq k k' m :
  k' <> k -> JSMap.get k' (JSMap.delete k m) = JSMap.get k' m.
Proof.
  intros N. induction m as [|[k2 v2] m IH]; simpl; [reflexivity|].
  destruct (String.eqb k k2) eqn:E; simpl.
  - apply String.eqb_eq in E. subst k2.
    apply String.eqb_neq in N. now rewrite N.
  - now rewrite IH.
Qed.

Lemma get_None_not_key k m :
  JSMap.get k m = None <-> ~ In k (JSMap.keys m).
Proof.
  pose proof (JSMapFacts.has_In_keys k m) as B. unfold JSMap.has in B.
  destruct (JSMap.get k m); split; intros X; try reflexivity; try discriminate.
  - exfalso. apply X, B. reflexivity.
  - intros I. apply B in I. discriminate.
Qed.

Lemma get_delete_eq k m :
  NoDup (JSMap.keys m) -> JSMap.get k (JSMap.delete k m) = None.
Proof.
  induction m as [|[k2 v2] m IH]; simpl; intros D; [reflexivity|].
  inversion D as [|? ? N D']; subst.
  destruct (String.eqb k k2) eqn:E; simpl.
  - apply String.eqb_eq in E. subst k2. now apply get_None_not_key.
  - rewrite E. now apply IH.
Qed.

Lemma delete_absent k m : JSMap.get k m = None -> JSMap.delete k m = m.
Proof.
  induction m as [|[k2 v2] m IH]; simpl; [reflexivity|].
  destruct (String.eqb k k2); [discriminate|].
  intros G. now rewrite IH.
Qed.

(** An entry survives [delete k] unless it is the one that [get k] finds. *)
Lemma In_delete_or k m k' v' :
  In (k', v') m ->
  (k' = k /\ JSMap.get k m = Some v') \/ In (k', v') (JSMap.delete k m).
Proof.
  induction m as [|[k2 v2] m IH]; simpl; [tauto|].
  destruct (String.eqb k k2) eqn:E.
  - apply String.eqb_eq in E. subst k2.
    intros [X|I]; [left; injection X as <- <-; auto | right; exact I].
  - simpl. intros [X|I]; [right; left; exact X|].
    destruct (IH I) as [L|R]; [left; exact L | right; right; exact R].
Qed.

(** An entry survives [set k v] unless it is the one that [get k] finds. *)
Lemma In_set_or k v m k' v' :
  In (k', v') m ->
  (k' = k /\ JSMap.get k m = Some v') \/ In (k', v') (JSMap.set k v m).
Proof.
  induction m as [|[k2 v2] m IH]; simpl; [tauto|].
  destruct (String.eqb k k2) eqn:E.
  - apply String.eqb_eq in E. subst k2. simpl.
    intros [X|I]; [left; injection X as <- <-; auto | right; right; exact I].
  - simpl. intros [X|I]; [right; left; exact X|].
    destruct (IH I) as [L|R]; [left; exact L | right; right; exact R].
Qed.
End Facts.
End JSMapMore.

Lemma isLanguageSupported_registerExecutor language workerPath query c :
  isLanguageSupported query (registerExecutor language workerPath c) =
  (String.eqb (toLowerCase query) (toLowerCase language)
   || isLanguageSupported query c)%bool.
Proof. unfold isLanguageSupported. simpl. apply JSMapMore.has_set. Qed.

(** [registerExecutor] makes the language supported under every spelling
    of its name that differs only in the case of the letters A to Z,
    stores the path as its entry point (whatever was there before), and
    touches neither the sessions, the readiness flags nor the input
    handlers.  For names in ASCII, the support and the entry point of
    every other name are left as they were. *)
Theorem registerExecutor_supports (language workerPath : string)
    (c : WebRunnrCore) :
  (forall query, equal_ignoring_case query language ->
     isLanguageSupported query (registerExecutor language workerPath c) = true /\
     JSMap.get (toLowerCase query)
       (workerPaths (registerExecutor language workerPath c)) = Some workerPath) /\
  (forall query,
     ascii_only language = true -> ascii_only query = true ->
     ~ equal_ignoring_case query language ->
     isLanguageSupported query (registerExecutor language workerPath c) =
       isLanguageSupported query c /\
     JSMap.get (toLowerCase query)
       (workerPaths (registerExecutor language workerPath c)) =
       JSMap.get (toLowerCase query) (workerPaths c)) /\
  workers (registerExecutor language workerPath c) = workers c /\
  workerReady (registerExecutor language workerPath c) = workerReady c /\
  inputHandlers (registerExecutor language workerPath c) = inputHandlers c.
Proof.
  split; [|split; [|repeat split]].
  - intros query E. apply toLowerCase_ignores_case in E.
    rewrite isLanguageSupported_registerExecutor, E, String.eqb_refl.
    split; [reflexivity|]. simpl. apply JSMapFacts.get_set_eq.
  - intros query _ _ N.
    assert (D : toLowerCase query <> toLowerCase language).
    { intros E. apply N. now apply toLowerCase_ignores_case. }
    rewrite isLanguageSupported_registerExecutor.
    apply String.eqb_neq in D. rewrite D. split; [reflexivity|].
    simpl. apply JSMapFacts.get_set_neq. now apply String.eqb_neq.
Qed.

(** [getSupportedLanguages] after [registerExecutor]: the list is the same
    when the language was supported already (the new path takes the place
    of the old one), and otherwise the lower-cased name comes last. *)
Theorem registerExecutor_languages (language workerPath : string)
    (c : WebRunnrCore) :
  getSupportedLanguages (registerExecutor language workerPath c) =
  if isLanguageSupported language c
  then getSupportedLanguages c
  else getSupportedLanguages c ++ [toLowerCase language].
Proof. unfold getSupportedLanguages, isLanguageSupported. simpl. apply JSMapMore.keys_set. Qed.

(** [isLanguageSupported] and [getSupportedLanguages] agree: a language is
    supported exactly when its lower-cased name is listed. *)
Theorem isLanguageSupported_listed (language : string) (c : WebRunnrCore) :
  isLanguageSupported language c = true <->
  In (toLowerCase language) (getSupportedLanguages c).
Proof. apply JSMapFacts.has_In_keys. Qed.

(** The list of supported languages never holds a name twice, nor a name
    with an upper-case letter: this is so for a fresh instance and stays
    so whatever is registered. *)
Theorem languages_stay_canonical (language workerPath : string)
    (c : WebRunnrCore) :
  canonical_languages constructor /\
  (canonical_languages c ->
   canonical_languages (registerExecutor language workerPath c)).
Proof.
  split.
  - split.
    + repeat constructor; simpl; intuition discriminate.
    + repeat constructor.
  - intros [D L]. unfold canonical_languages, getSupportedLanguages in *.
    simpl. rewrite JSMapMore.keys_set.
    destruct (JSMap.has (toLowerCase language) (workerPaths c)) eqn:S;
      [split; assumption|].
    split.
    + apply NoDup_app; [exact D | repeat constructor; intros [] |].
      intros x I [<-|[]].
      apply JSMapFacts.has_In_keys in I. congruence.
    + apply Forall_app. split; [exact L|].
      constructor; [apply toLowerCase_idempotent | constructor].
Qed.

(** ** Entry points and sessions *)

Lemma getOrCreateWorker_resolved_ready {H} language (w : World H) tr worker w1 tr1 :
  getOrCreateWorker language w tr = (Resolved worker, w1, tr1) ->
  JSMap.get language (workers (self w1)) = Some worker /\
  JSMap.get language (workerReady (self w1)) = Some true.
Proof.
  intros E. destruct (session_ready language (self w)) eqn:S.
  - unfold session_ready in S.
    destruct (JSMap.get language (workers (self w))) as [wk|] eqn:G;
      [|discriminate].
    destruct (JSMap.get language (workerReady (self w))) as [[|]|] eqn:R;
      try discriminate.
    rewrite (getOrCreateWorker_reuse language w tr wk G R) in E.
    injection E as <- <- <-. auto.
  - destruct (JSMap.get language (workerPaths (self w))) as [path|] eqn:P;
      [destruct (truthy path) eqn:T|].
    + destruct (getOrCreateWorker_constructs language path w tr S P T)
        as (h & t & tr' & E2 & _).
      rewrite E in E2. destruct h; try discriminate.
      injection E2 as -> -> ->. split.
      * rewrite <- (retire_pool_length language w). apply constructed_workers.
      * apply (constructed_ready language path hs_ready).
    + rewrite getOrCreateWorker_no_executor in E by (auto; now rewrite P).
      discriminate.
    + rewrite getOrCreateWorker_no_executor in E by (auto; now rewrite P).
      discriminate.
Qed.

Lemma executeWithEvents_self {H} (eventHandler : ExecutionEvent -> H -> H)
    request options (w : World H) tr worker w1 tr1 o w' tr' :
  getOrCreateWorker (toLowerCase (language request)) w tr =
    (Resolved worker, w1, tr1) ->
  executeWithEvents eventHandler request options w tr = (o, w', tr') ->
  self w' = self (install (toLowerCase (language request)) options w1).
Proof.
  intros G E. rewrite executeWithEvents_steps, G, executeOnWorker_started in E.
  match type of E with
  | conclude _ _ ?r = _ => destruct r as [[o2 w2] tr2] eqn:X
  end.
  apply Invariant.awaitExecution_same in X. destruct X as [X _].
  destruct o2; simpl in E; injection E as _ <- _; exact X.
Qed.

(** An entry point that is the empty string counts as none: the language
    is reported as supported, but an execution that needs a new worker
    fails with "No executor found for language". *)
Theorem empty_path_is_supported_but_not_executable {H}
    (eventHandler : ExecutionEvent -> H -> H) (request : ExecutionRequest)
    (options : ExecutorOptions) (w : World H) (tr : list Stimulus) :
  session_ready (toLowerCase (language request)) (self w) = false ->
  isLanguageSupported (language request)
    (registerExecutor (language request) "" (self w)) = true /\
  executeWithEvents eventHandler request options
    (in_self (registerExecutor (language request) "") w) tr =
  (Resolved (mkResult ""
               ("Execution failed: " +++ "No executor found for language: "
                                     +++ toLowerCase (language request))
               false (Some 0%N)),
   forward eventHandler
     (error ("No executor found for language: " +++ toLowerCase (language request)))
     (retire (toLowerCase (language request))
        (in_self (registerExecutor (language request) "") w)),
   tr).
Proof.
  intros S. split.
  - rewrite isLanguageSupported_registerExecutor, String.eqb_refl. reflexivity.
  - rewrite (executeWithEvents_failed_worker eventHandler request options _ tr
               ("No executor found for language: " +++ toLowerCase (language request))
               (retire (toLowerCase (language request))
                  (in_self (registerExecutor (language request) "") w)) tr).
    + assert (C : clock (env (retire (toLowerCase (language request))
                                  (in_self (registerExecutor (language request) "") w))) =
                  clock (env (in_self (registerExecutor (language request) "") w))).
      { unfold retire.
        now destruct (JSMap.get (toLowerCase (language request))
                        (workers (self (in_self (registerExecutor (language request) "") w)))). }
      now rewrite C, N.sub_diag.
    + apply getOrCreateWorker_no_executor; [exact S|].
      simpl. now rewrite JSMapFacts.get_set_eq.
Qed.

(** [registerExecutor] does not disturb a ready session: the next
    [getOrCreateWorker] still returns its worker.  Without a ready
    session, the worker that is constructed next runs the newly
    registered path. *)
Theorem registerExecutor_takes_effect_on_construction {H}
    (language workerPath : string) (w : World H) (tr : list Stimulus) :
  (forall worker,
     JSMap.get (toLowerCase language) (workers (self w)) = Some worker ->
     JSMap.get (toLowerCase language) (workerReady (self w)) = Some true ->
     getOrCreateWorker (toLowerCase language)
       (in_self (registerExecutor language workerPath) w) tr =
     (Resolved worker, in_self (registerExecutor language workerPath) w, tr)) /\
  (session_ready (toLowerCase language) (self w) = false ->
   truthy workerPath = true ->
   forall o w' tr',
     getOrCreateWorker (toLowerCase language)
       (in_self (registerExecutor language workerPath) w) tr = (o, w', tr') ->
     JSMap.get (toLowerCase language) (workers (self w')) =
       Some (length (pool (env w))) /\
     exists obj,
       lookup_worker (length (pool (env w))) (env w') = Some obj /\
       scriptURL obj = workerPath /\ terminated obj = false).
Proof.
  split.
  - intros worker G R. now apply getOrCreateWorker_reuse.
  - intros S T o w' tr' E.
    destruct (getOrCreateWorker_constructs (toLowerCase language) workerPath
                (in_self (registerExecutor language workerPath) w) tr S)
      as (h & t & tr2 & E2 & _); [simpl; apply JSMapFacts.get_set_eq | exact T |].
    rewrite E in E2. injection E2 as -> -> ->.
    pose proof (retire_pool_length (toLowerCase language)
                  (in_self (registerExecutor language workerPath) w)) as L.
    simpl in L. split.
    + rewrite <- L. apply constructed_workers.
    + rewrite <- L. rewrite lookup_constructed_new. eexists.
      split; [reflexivity|]. split; reflexivity.
Qed.

Lemma terminate_all_length (l : JSMap.t Worker) rt :
  length (pool (fold_left (fun rt entry => worker_terminate (snd entry) rt) l rt)) =
  length (pool rt).
Proof.
  revert rt. induction l as [|[k wk] l IH]; simpl; intros rt; [reflexivity|].
  rewrite IH. apply pool_on_worker_length.
Qed.

(** [terminateLanguageWorker] does nothing when the language has no
    session.  Otherwise it has the worker of the session terminated and
    leaves every other worker, the sessions of the other languages, the
    entry points and the input handlers as they were; the name of the
    language is taken up to letter case.  The session is gone afterwards,
    so that a second call does nothing. *)
Theorem terminateLanguageWorker_removes_one_session {H} (language : string)
    (w : World H) :
  (JSMap.get (toLowerCase language) (workers (self w)) = None ->
   terminateLanguageWorker language w = w) /\
  (forall worker,
     JSMap.get (toLowerCase language) (workers (self w)) = Some worker ->
     (worker < length (pool (env w)) ->
      is_terminated worker (env (terminateLanguageWorker language w))) /\
     (forall other, other <> worker ->
        lookup_worker other (env (terminateLanguageWorker language w)) =
        lookup_worker other (env w))) /\
  (forall other, other <> toLowerCase language ->
     JSMap.get other (workers (self (terminateLanguageWorker language w))) =
       JSMap.get other (workers (self w)) /\
     JSMap.get other (workerReady (self (terminateLanguageWorker language w))) =
       JSMap.get other (workerReady (self w))) /\
  workerPaths (self (terminateLanguageWorker language w)) = workerPaths (self w) /\
  inputHandlers (self (terminateLanguageWorker language w)) =
    inputHandlers (self w) /\
  (NoDup (JSMap.keys (workers (self w))) ->
   JSMap.get (toLowerCase language)
     (workers (self (terminateLanguageWorker language w))) = None /\
   terminateLanguageWorker language (terminateLanguageWorker language w) =
     terminateLanguageWorker language w).
Proof.
  unfold terminateLanguageWorker.
  destruct (JSMap.get (toLowerCase language) (workers (self w))) as [wk|] eqn:G;
    simpl.
  - split; [discriminate|]. split; [|split; [|split; [|split]]].
    + intros worker E. injection E as <-. split.
      * apply worker_terminate_terminates.
      * intros other N. now apply lookup_on_worker_neq.
    + intros other N. split; now apply JSMapMore.get_delete_neq.
    + reflexivity.
    + reflexivity.
    + intros D. pose proof (JSMapMore.get_delete_eq (toLowerCase language) _ D) as X.
      split; [exact X|]. now rewrite X.
  - split; [reflexivity|]. split; [discriminate|].
    split; [auto|]. split; [reflexivity|]. split; [reflexivity|].
    intros _. rewrite G. auto.
Qed.

(** After [terminate()], and after [terminateLanguageWorker] for the
    language, the next [getOrCreateWorker] constructs a new worker from
    the entry point of the language, also when the session was ready
    before. *)
Theorem termination_forces_construction {H} (language path : string)
    (w : World H) (tr : list Stimulus) :
  JSMap.get (toLowerCase language) (workerPaths (self w)) = Some path ->
  truthy path = true ->
  (forall o w' tr',
     getOrCreateWorker (toLowerCase language) (terminate w) tr = (o, w', tr') ->
     length (pool (env w')) = S (length (pool (env w))) /\
     JSMap.get (toLowerCase language) (workers (self w')) =
       Some (length (pool (env w))) /\
     (forall x, o = Resolved x -> x = length (pool (env w)))) /\
  (NoDup (JSMap.keys (workers (self w))) ->
   forall o w' tr',
     getOrCreateWorker (toLowerCase language)
       (terminateLanguageWorker language w) tr = (o, w', tr') ->
     length (pool (env w')) = S (length (pool (env w))) /\
     JSMap.get (toLowerCase language) (workers (self w')) =
       Some (length (pool (env w))) /\
     (forall x, o = Resolved x -> x = length (pool (env w)))).
Proof.
  intros P T.
  assert (K : forall (w0 : World H),
            JSMap.get (toLowerCase language) (workers (self w0)) = None ->
            workerPaths (self w0) = workerPaths (self w) ->
            length (pool (env w0)) = length (pool (env w)) ->
            forall o w' tr',
              getOrCreateWorker (toLowerCase language) w0 tr = (o, w', tr') ->
              length (pool (env w')) = S (length (pool (env w))) /\
              JSMap.get (toLowerCase language) (workers (self w')) =
                Some (length (pool (env w))) /\
              (forall x, o = Resolved x -> x = length (pool (env w)))).
  { intros w0 G P0 L0 o w' tr' E.
    destruct (getOrCreateWorker_constructs (toLowerCase language) path w0 tr)
      as (h & t & tr2 & E2 & _).
    - unfold session_ready. now rewrite G.
    - now rewrite P0.
    - exact T.
    - rewrite E in E2. injection E2 as -> -> ->.
      pose proof (retire_pool_length (toLowerCase language) w0) as L.
      rewrite <- L0. split; [|split].
      + simpl. rewrite length_app, L. simpl. lia.
      + rewrite <- L. apply constructed_workers.
      + intros x. destruct h; simpl; try discriminate. congruence. }
  split.
  - apply K; try reflexivity. simpl. apply terminate_all_length.
  - intros D. apply K; unfold terminateLanguageWorker.
    + destruct (JSMap.get (toLowerCase language) (workers (self w))) eqn:G;
        simpl; [now apply JSMapMore.get_delete_eq | exact G].
    + now destruct (JSMap.get (toLowerCase language) (workers (self w))).
    + destruct (JSMap.get (toLowerCase language) (workers (self w)));
        [apply pool_on_worker_length | reflexivity].
Qed.

(** Once an execution has obtained a worker, the session of its language
    is still ready when [executeWithEvents] returns, whatever the result:
    the next [getOrCreateWorker] returns the same worker, also after a
    timeout or a fault of that worker. *)
Theorem session_stays_ready_after_execution {H}
    (eventHandler : ExecutionEvent -> H -> H) (request : ExecutionRequest)
    (options : ExecutorOptions) (w : World H) (tr : list Stimulus)
    (worker : Worker) (w1 : World H) (tr1 : list Stimulus)
    (o : Outcome ExecutionResult) (w' : World H) (tr' : list Stimulus) :
  getOrCreateWorker (toLowerCase (language request)) w tr =
    (Resolved worker, w1, tr1) ->
  executeWithEvents eventHandler request options w tr = (o, w', tr') ->
  forall tr2,
    getOrCreateWorker (toLowerCase (language request)) w' tr2 =
    (Resolved worker, w', tr2).
Proof.
  intros G E tr2.
  destruct (getOrCreateWorker_resolved_ready _ _ _ _ _ _ G) as [A B].
  pose proof (executeWithEvents_self eventHandler _ _ _ _ _ _ _ _ _ _ G E) as S.
  apply getOrCreateWorker_reuse; rewrite S; unfold install;
    destruct (opt_inputHandler options); assumption.
Qed.

(** ** No worker is left running without a session *)

Lemma same_liveness_no_orphans {H H'} (w : World H) (w' : World H') :
  same_liveness w w' -> no_orphans w -> no_orphans w'.
Proof.
  intros [S L] I worker obj Lk T. rewrite S.
  specialize (L worker). rewrite Lk in L. simpl in L.
  destruct (lookup_worker worker (env w)) as [obj0|] eqn:Lk0; [|discriminate].
  apply (I worker obj0 Lk0). simpl in L. congruence.
Qed.

Lemma same_liveness_trans {H H' H''} (w : World H) (w' : World H')
    (w'' : World H'') :
  same_liveness w w' -> same_liveness w' w'' -> same_liveness w w''.
Proof.
  intros [S1 L1] [S2 L2]. split; [congruence|].
  intros k. now rewrite L2, L1.
Qed.

Lemma on_worker_liveness worker f rt other :
  (forall o, terminated (f o) = terminated o) ->
  option_map terminated (lookup_worker other (on_worker worker f rt)) =
  option_map terminated (lookup_worker other rt).
Proof.
  intros F. destruct (Nat.eq_dec other worker) as [->|N].
  - rewrite lookup_on_worker_eq.
    destruct (lookup_worker worker rt); simpl; [now rewrite F | reflexivity].
  - now rewrite lookup_on_worker_neq.
Qed.

Lemma answer_input_liveness {H} worker prompt (w : World H) :
  same_liveness w (answer_input worker prompt w).
Proof.
  unfold answer_input.
  destruct (match JSMap.get "python" (inputHandlers (self w)) with
            | Some handler => handler
            | None => defaultInputHandler (env w)
            end prompt); (split; [reflexivity|]); intros k; simpl;
    now apply on_worker_liveness.
Qed.

Lemma awaitExecution_liveness {H} (eventHandler : ExecutionEvent -> H -> H)
    worker me :
  forall tr timer acc (w : World H) o w' tr',
    awaitExecution eventHandler worker me timer acc tr w = (o, w', tr') ->
    same_liveness w w'.
Proof.
  assert (C : forall w0 : World H, same_liveness w0 (cleanup worker me w0)).
  { intros w0. split; [reflexivity|]. intros k. simpl.
    now apply on_worker_liveness. }
  assert (R : forall w0 : World H, same_liveness w0 w0) by (split; reflexivity).
  induction tr as [|s tr IH]; intros timer acc w o w' tr'; simpl.
  - intros E. injection E as _ <- _. apply R.
  - destruct s as [e|fault|d].
    + destruct e; intros E.
      * exact (IH _ _ _ _ _ _ E).
      * exact (IH _ _ _ _ _ _ E).
      * apply IH in E. eapply same_liveness_trans; [|exact E].
        apply (answer_input_liveness worker prompt
                 (mkWorld (self w) (env w)
                    (eventHandler (input_request prompt) (caller w)))).
      * exact (IH _ _ _ _ _ _ E).
      * injection E as _ <- _.
        apply (C (mkWorld (self w) (env w) (eventHandler done (caller w)))).
      * injection E as _ <- _.
        apply (C (mkWorld (self w) (env w) (eventHandler (error data) (caller w)))).
    + intros E. injection E as _ <- _. apply C.
    + destruct timer as [remaining|].
      * destruct (d <? remaining)%N; intros E.
        -- exact (IH _ _ _ _ _ _ E).
        -- injection E as _ <- _. split; reflexivity.
      * intros E. exact (IH _ _ _ _ _ _ E).
Qed.

Lemma started_liveness {H} worker code (w : World H) :
  same_liveness w (started worker code w).
Proof.
  split; [reflexivity|]. intros k. unfold started, postMessage, set_onerror,
    addEventListener. simpl.
  rewrite !on_worker_liveness by reflexivity. reflexivity.
Qed.

Lemma install_liveness {H} language options (w : World H) :
  same_liveness w (install language options w).
Proof. unfold install. destruct (opt_inputHandler options); split; reflexivity. Qed.

Lemma executeWithEvents_liveness {H} (eventHandler : ExecutionEvent -> H -> H)
    request options (w : World H) tr o w' tr' :
  executeWithEvents eventHandler request options w tr = (o, w', tr') ->
  exists o1 w1 tr1,
    getOrCreateWorker (toLowerCase (language request)) w tr = (o1, w1, tr1) /\
    same_liveness w1 w'.
Proof.
  rewrite executeWithEvents_steps. intros E.
  destruct (getOrCreateWorker (toLowerCase (language request)) w tr)
    as [[o1 w1] tr1] eqn:G.
  exists o1, w1, tr1. split; [reflexivity|].
  destruct o1 as [worker|message|]; simpl in E.
  - rewrite executeOnWorker_started in E.
    match type of E with
    | conclude _ _ ?r = _ => destruct r as [[o2 w2] tr2] eqn:X
    end.
    apply awaitExecution_liveness in X.
    assert (S : same_liveness w1 w2).
    { eapply same_liveness_trans; [apply install_liveness|].
      eapply same_liveness_trans; [apply started_liveness | exact X]. }
    destruct o2; simpl in E; injection E as _ <- _; exact S.
  - injection E as _ <- _. split; reflexivity.
  - injection E as _ <- _. split; reflexivity.
Qed.

Lemma retire_live {H} language (w : World H) worker obj :
  lookup_worker worker (env (retire language w)) = Some obj ->
  terminated obj = false ->
  lookup_worker worker (env w) = Some obj /\
  JSMap.get language (workers (self w)) <> Some worker.
Proof.
  unfold retire.
  destruct (JSMap.get language (workers (self w))) as [old|]; simpl.
  - intros L T. unfold worker_terminate in L.
    destruct (Nat.eq_dec worker old) as [->|N].
    + rewrite lookup_on_worker_eq in L.
      destruct (lookup_worker old (env w)); simpl in L; [|discriminate].
      injection L as <-. discriminate.
    + rewrite lookup_on_worker_neq in L by assumption. split; [exact L|].
      congruence.
  - intros L T. split; [exact L | discriminate].
Qed.

Lemma retire_no_orphans {H} language (w : World H) :
  no_orphans w -> no_orphans (retire language w).
Proof.
  intros I worker obj L T. rewrite retire_self.
  destruct (retire_live language w worker obj L T) as [L0 _].
  exact (I worker obj L0 T).
Qed.

Lemma getOrCreateWorker_no_orphans {H} language (w : World H) tr o w' tr' :
  getOrCreateWorker language w tr = (o, w', tr') ->
  no_orphans w -> no_orphans w'.
Proof.
  intros E I. destruct (session_ready language (self w)) eqn:S.
  - unfold session_ready in S.
    destruct (JSMap.get language (workers (self w))) as [wk|] eqn:G;
      [|discriminate].
    destruct (JSMap.get language (workerReady (self w))) as [[|]|] eqn:R;
      try discriminate.
    rewrite (getOrCreateWorker_reuse language w tr wk G R) in E.
    now injection E as _ <- _.
  - destruct (JSMap.get language (workerPaths (self w))) as [path|] eqn:P;
      [destruct (truthy path) eqn:T|].
    + destruct (getOrCreateWorker_constructs language path w tr S P T)
        as (h & t & tr2 & E2 & _).
      rewrite E in E2. injection E2 as _ -> _.
      intros worker obj L Tm.
      pose proof (retire_pool_length language w) as Len.
      destruct (Nat.lt_ge_cases worker (length (pool (env (retire language w)))))
        as [B|B].
      * rewrite lookup_constructed_old in L by exact B.
        destruct (retire_live language w worker obj L Tm) as [L0 N].
        destruct (I worker obj L0 Tm) as (l & In0).
        destruct (JSMapMore.In_set_or language
                    (length (pool (env (retire language w)))) _ _ _ In0)
          as [[-> G]|In1]; [contradiction|].
        exists l. simpl. rewrite retire_self. exact In1.
      * exists language. apply JSMapFacts.get_In.
        assert (worker = length (pool (env (retire language w)))) as ->.
        { apply Nat.le_antisymm; [|exact B].
          assert (B' : worker < length (pool (env (constructed language path h
                                                     (tick t (retire language w))))))
            by (apply nth_error_Some; unfold lookup_worker in L; congruence).
          simpl in B'. rewrite length_app in B'. simpl in B'. lia. }
        apply constructed_workers.
    + rewrite getOrCreateWorker_no_executor in E by (auto; now rewrite P).
      injection E as _ <- _. now apply retire_no_orphans.
    + rewrite getOrCreateWorker_no_executor in E by (auto; now rewrite P).
      injection E as _ <- _. now apply retire_no_orphans.
Qed.

Lemma worker_terminate_live worker k rt obj :
  lookup_worker k (worker_terminate worker rt) = Some obj ->
  terminated obj = false ->
  k <> worker /\ lookup_worker k rt = Some obj.
Proof.
  intros L T. unfold worker_terminate in L.
  destruct (Nat.eq_dec k worker) as [->|N].
  - rewrite lookup_on_worker_eq in L.
    destruct (lookup_worker worker rt); simpl in L; [|discriminate].
    injection L as <-. discriminate.
  - rewrite lookup_on_worker_neq in L by assumption. auto.
Qed.

Lemma terminate_all_live (l : JSMap.t Worker) k rt obj :
  lookup_worker k
    (fold_left (fun rt entry => worker_terminate (snd entry) rt) l rt) = Some obj ->
  terminated obj = false ->
  lookup_worker k rt = Some obj /\ ~ In k (JSMap.values l).
Proof.
  revert rt. induction l as [|[name wk] l IH]; simpl; intros rt L T.
  - auto.
  - destruct (IH _ L T) as [L1 N1].
    destruct (worker_terminate_live wk k rt obj L1 T) as [N2 L2].
    split; [exact L2|]. intros [X|X]; [congruence | contradiction].
Qed.

Lemma terminate_leaves_none_live {H} (w : World H) worker :
  no_orphans w -> ~ is_live worker (env (terminate w)).
Proof.
  intros I (obj & L & T). unfold terminate in L. simpl in L.
  destruct (terminate_all_live _ _ _ _ L T) as [L0 N].
  destruct (I worker obj L0 T) as (language & In0).
  apply N. unfold JSMap.values.
  change worker with (snd (language, worker)). now apply in_map.
Qed.

Lemma terminateLanguageWorker_no_orphans {H} language (w : World H) :
  no_orphans w -> no_orphans (terminateLanguageWorker language w).
Proof.
  intros I worker obj. unfold terminateLanguageWorker.
  destruct (JSMap.get (toLowerCase language) (workers (self w))) as [wk|] eqn:G;
    [|apply I].
  simpl. intros L T.
  destruct (worker_terminate_live wk worker (env w) obj L T) as [N L0].
  destruct (I worker obj L0 T) as (l & In0).
  destruct (JSMapMore.In_delete_or (toLowerCase language) _ _ _ In0)
    as [[_ G']|In1]; [congruence|].
  now exists l.
Qed.

(** The core never leaves a worker running without a session.  If every
    worker that has not been terminated is the worker of some language,
    this is still so after [registerExecutor], [setInputHandler],
    [terminateLanguageWorker], [getOrCreateWorker], [executeWithEvents]
    and [execute], however they end. *)
Theorem no_worker_is_orphaned {H} (w : World H) :
  no_orphans w ->
  (forall language workerPath,
     no_orphans (in_self (registerExecutor language workerPath) w)) /\
  (forall language handler,
     no_orphans (in_self (setInputHandler language handler) w)) /\
  (forall language, no_orphans (terminateLanguageWorker language w)) /\
  (forall language tr o w' tr',
     getOrCreateWorker language w tr = (o, w', tr') -> no_orphans w') /\
  (forall (eventHandler : ExecutionEvent -> H -> H) request options tr o w' tr',
     executeWithEvents eventHandler request options w tr = (o, w', tr') ->
     no_orphans w') /\
  (forall request tr o w' tr',
     execute request w tr = (o, w', tr') -> no_orphans w').
Proof.
  intros I. split; [|split; [|split; [|split; [|split]]]].
  - intros language workerPath. exact I.
  - intros language handler. exact I.
  - intros language. now apply terminateLanguageWorker_no_orphans.
  - intros language tr o w' tr' E.
    exact (getOrCreateWorker_no_orphans _ _ _ _ _ _ E I).
  - intros eventHandler request options tr o w' tr' E.
    destruct (executeWithEvents_liveness _ _ _ _ _ _ _ _ E)
      as (o1 & w1 & tr1 & G & S).
    apply (same_liveness_no_orphans _ _ S).
    exact (getOrCreateWorker_no_orphans _ _ _ _ _ _ G I).
  - intros request tr o w' tr'. unfold execute.
    destruct (executeWithEvents execute_handler request no_options
                (mkWorld (self w) (env w) (mkOutput "" "" false)) tr)
      as [[o2 w2] tr2] eqn:E.
    intros X. injection X as _ <- _.
    destruct (executeWithEvents_liveness _ _ _ _ _ _ _ _ E)
      as (o1 & w1 & tr1 & G & S).
    assert (I2 : no_orphans w2).
    { apply (same_liveness_no_orphans _ _ S).
      apply (getOrCreateWorker_no_orphans _ _ _ _ _ _ G). exact I. }
    exact I2.
Qed.

(** [terminate()] leaves no worker running: when no worker was orphaned
    before, every worker of the pool has been terminated afterwards, and
    the cleared instance has no orphan either. *)
Theorem terminate_stops_every_worker {H} (w : World H) :
  no_orphans w ->
  (forall worker, ~ is_live worker (env (terminate w))) /\
  (forall worker obj,
     lookup_worker worker (env (terminate w)) = Some obj -> terminated obj = true) /\
  length (pool (env (terminate w))) = length (pool (env w)) /\
  no_orphans (terminate w).
Proof.
  intros I. split; [|split; [|split]].
  - intros worker. now apply terminate_leaves_none_live.
  - intros worker obj L. destruct (terminated obj) eqn:T; [reflexivity|].
    exfalso. apply (terminate_leaves_none_live w worker I). now exists obj.
  - apply terminate_all_length.
  - intros worker obj L T. exfalso.
    apply (terminate_leaves_none_live w worker I). now exists obj.
Qed.

(** ** Well-formed worlds stay well-formed *)

Lemma execute_worlds {H} request (w : World H) tr o w' tr' :
  execute request w tr = (o, w', tr') ->
  exists o2 w2,
    executeWithEvents execute_handler request no_options
      (recast (mkOutput "" "" false) w) tr = (o2, w2, tr') /\
    w' = recast (caller w) w2.
Proof.
  unfold execute, recast.
  destruct (executeWithEvents execute_handler request no_options
              (mkWorld (self w) (env w) (mkOutput "" "" false)) tr)
    as [[o2 w2] tr2].
  intros E. injection E as _ <- <-. now exists o2, w2.
Qed.

(** Every method keeps the world well-formed (each session maps its
    language to a worker of the pool, and the language has a non-empty
    entry point), provided that [registerExecutor] is given a non-empty
    path. *)
Theorem well_formedness_is_kept {H} (w : World H) :
  well_formed w ->
  (forall language workerPath,
     truthy workerPath = true ->
     well_formed (in_self (registerExecutor language workerPath) w)) /\
  (forall language handler,
     well_formed (in_self (setInputHandler language handler) w)) /\
  well_formed (terminate w) /\
  (forall language, well_formed (terminateLanguageWorker language w)) /\
  (forall language tr o w' tr',
     getOrCreateWorker language w tr = (o, w', tr') -> well_formed w') /\
  (forall (eventHandler : ExecutionEvent -> H -> H) request options tr o w' tr',
     executeWithEvents eventHandler request options w tr = (o, w', tr') ->
     well_formed w') /\
  (forall request tr o w' tr',
     execute request w tr = (o, w', tr') -> well_formed w').
Proof.
  intros I. split; [|split; [|split; [|split; [|split; [|split]]]]].
  - intros language workerPath T. now apply Invariant.registerExecutor_keeps.
  - intros language handler. now apply Invariant.setInputHandler_keeps.
  - apply Invariant.terminate_keeps.
  - intros language. now apply Invariant.terminateLanguageWorker_keeps.
  - intros language tr o w' tr' E.
    exact (Invariant.getOrCreateWorker_keeps _ _ _ _ _ _ E I).
  - intros eventHandler request options tr o w' tr' E.
    exact (Invariant.executeWithEvents_keeps _ _ _ _ _ _ _ _ E I).
  - intros request tr o w' tr' E.
    destruct (execute_worlds _ _ _ _ _ _ E) as (o2 & w2 & E2 & ->).
    exact (Invariant.executeWithEvents_keeps _ _ _ _ _ _ _ _ E2 I).
Qed.

(** ** The handshake, as seen by the caller *)

(** While a new worker initialises, whatever it posts other than [ready]
    and [error] is ignored: it is neither passed to the caller's event
    handler nor kept.  When [ready] arrives within 30000 ms, the new
    worker is returned at that moment, as the ready session of the
    language. *)
Theorem handshake_ignores_other_messages {H} (language path : string)
    (w : World H) (hs rest : list Stimulus) :
  session_ready language (self w) = false ->
  JSMap.get language (workerPaths (self w)) = Some path ->
  truthy path = true ->
  forallb indecisive hs = true ->
  (elapsed hs < handshake_timeout)%N ->
  exists w',
    getOrCreateWorker language w (hs ++ Message ready :: rest) =
      (Resolved (length (pool (env w))), w', rest) /\
    caller w' = caller w /\
    clock (env w') = (clock (env w) + elapsed hs)%N /\
    JSMap.get language (workers (self w')) = Some (length (pool (env w))) /\
    JSMap.get language (workerReady (self w')) = Some true /\
    lookup_worker (length (pool (env w))) (env w') =
      Some (mkWorkerObj path [] (Some (handshakeHandler (closures (env w))))
                        false []).
Proof.
  intros R P T Q B. eexists. split.
  - now apply (getOrCreateWorker_handshake language path).
  - pose proof (retire_pool_length language w) as L.
    pose proof (retire_closures language w) as C.
    split; [|split; [|split; [|split]]].
    + simpl. unfold retire.
      now destruct (JSMap.get language (workers (self w))).
    + simpl. unfold retire.
      now destruct (JSMap.get language (workers (self w))).
    + rewrite <- L. apply constructed_workers.
    + apply (constructed_ready language path hs_ready).
    + rewrite <- L, <- C. apply lookup_constructed_new.
Qed.

(** A worker that does not post [ready] (nor [error], and without a
    fault) within 30000 ms makes [getOrCreateWorker] fail after 30000 ms
    exactly, whatever else it posts; [executeWithEvents] then resolves
    with a failed result whose execution time is 30000 ms. *)
Theorem handshake_times_out_after_30_seconds {H}
    (eventHandler : ExecutionEvent -> H -> H) (request : ExecutionRequest)
    (options : ExecutorOptions) (path : string) (w : World H)
    (tr : list Stimulus) :
  session_ready (toLowerCase (language request)) (self w) = false ->
  JSMap.get (toLowerCase (language request)) (workerPaths (self w)) = Some path ->
  truthy path = true ->
  forallb indecisive tr = true ->
  (30000 <= elapsed tr)%N ->
  exists w1 tr1,
    getOrCreateWorker (toLowerCase (language request)) w tr =
      (Rejected ("Worker for " +++ toLowerCase (language request) +++
                 " failed to initialize within timeout"), w1, tr1) /\
    clock (env w1) = (clock (env w) + 30000)%N /\
    executeWithEvents eventHandler request options w tr =
      (Resolved (mkResult ""
                   ("Execution failed: " +++ "Worker for " +++
                    toLowerCase (language request) +++
                    " failed to initialize within timeout")
                   false (Some 30000%N)),
       forward eventHandler
         (error ("Worker for " +++ toLowerCase (language request) +++
                 " failed to initialize within timeout")) w1,
       tr1).
Proof.
  intros R P T Q B.
  destruct (getOrCreateWorker_times_out _ path w tr R P T Q B) as (tr1 & E).
  eexists. exists tr1. split; [exact E|].
  assert (C : clock (env (constructed (toLowerCase (language request)) path hs_timeout
                            (tick handshake_timeout
                               (retire (toLowerCase (language request)) w)))) =
              (clock (env w) + 30000)%N).
  { simpl. unfold retire.
    now destruct (JSMap.get (toLowerCase (language request)) (workers (self w))). }
  split; [exact C|].
  rewrite (executeWithEvents_failed_worker eventHandler request options w tr _ _ _ E).
  rewrite C. now replace (clock (env w) + 30000 - clock (env w))%N with 30000%N by lia.
Qed.

(** A first execution, handshake included: what the worker posts before
    [ready] is dropped, the result holds what it wrote between [ready]
    and [done], the execution time covers the handshake, and the timer
    of [options.timeout] only runs from [ready] on. *)
Theorem first_execution_includes_the_handshake {H}
    (eventHandler : ExecutionEvent -> H -> H) (request : ExecutionRequest)
    (options : ExecutorOptions) (path : string) (w : World H)
    (hs pre rest : list Stimulus) :
  session_ready (toLowerCase (language request)) (self w) = false ->
  JSMap.get (toLowerCase (language request)) (workerPaths (self w)) = Some path ->
  truthy path = true ->
  forallb indecisive hs = true ->
  (elapsed hs < 30000)%N ->
  forallb quiet pre = true ->
  outlasts (start_timer (opt_timeout options)) (elapsed pre) ->
  exists w',
    executeWithEvents eventHandler request options w
      (hs ++ Message ready :: pre ++ Message done :: rest) =
      (Resolved (mkResult (stdout_of pre) (stderr_of pre) true
                          (Some (elapsed hs + elapsed pre)%N)),
       w', rest) /\
    caller w' =
      fold_left (fun h e => eventHandler e h) (messages_of pre ++ [done]) (caller w).
Proof.
  intros R P T Q B Qp O.
  pose proof (getOrCreateWorker_handshake _ path w hs
                (pre ++ Message done :: rest) R P T Q B) as G.
  eexists. split.
  - rewrite (executeWithEvents_done eventHandler request options w _ _ _ pre rest
               G Qp O).
    assert (C : clock (env (constructed (toLowerCase (language request)) path
                              hs_ready
                              (tick (elapsed hs)
                                 (retire (toLowerCase (language request)) w)))) =
                (clock (env w) + elapsed hs)%N).
    { simpl. unfold retire.
      now destruct (JSMap.get (toLowerCase (language request)) (workers (self w))). }
    rewrite C.
    now replace (clock (env w) + elapsed hs + elapsed pre - clock (env w))%N
      with (elapsed hs + elapsed pre)%N by lia.
  - rewrite finished_caller. simpl. unfold retire.
    now destruct (JSMap.get (toLowerCase (language request)) (workers (self w))).
Qed.

(** ** What an execution does to its worker and to the input handlers *)

Lemma getOrCreateWorker_inputHandlers {H} language (w : World H) tr o w1 tr1 :
  getOrCreateWorker language w tr = (o, w1, tr1) ->
  inputHandlers (self w1) = inputHandlers (self w).
Proof.
  intros E. destruct (session_ready language (self w)) eqn:S.
  - unfold session_ready in S.
    destruct (JSMap.get language (workers (self w))) as [wk|] eqn:G;
      [|discriminate].
    destruct (JSMap.get language (workerReady (self w))) as [[|]|] eqn:R;
      try discriminate.
    rewrite (getOrCreateWorker_reuse language w tr wk G R) in E.
    now injection E as _ <- _.
  - destruct (JSMap.get language (workerPaths (self w))) as [path|] eqn:P;
      [destruct (truthy path) eqn:T|].
    + destruct (getOrCreateWorker_constructs language path w tr S P T)
        as (h & t & tr2 & E2 & _).
      rewrite E in E2. injection E2 as _ -> _. simpl. now rewrite retire_self.
    + rewrite getOrCreateWorker_no_executor in E by (auto; now rewrite P).
      injection E as _ <- _. now rewrite retire_self.
    + rewrite getOrCreateWorker_no_executor in E by (auto; now rewrite P).
      injection E as _ <- _. now rewrite retire_self.
Qed.

(** The input handler passed in the options of [executeWithEvents] is
    stored as the handler of the language once a worker has been
    obtained, and stays there when the call returns: it is a setting of
    the instance, not of the call.  It is not stored when no worker could
    be obtained, and without it the handlers are left as they were. *)
Theorem options_inputHandler_outlives_the_call {H}
    (eventHandler : ExecutionEvent -> H -> H) (request : ExecutionRequest)
    (options : ExecutorOptions) (w : World H) (tr : list Stimulus)
    (o : Outcome ExecutionResult) (w' : World H) (tr' : list Stimulus) :
  executeWithEvents eventHandler request options w tr = (o, w', tr') ->
  (opt_inputHandler options = None ->
   inputHandlers (self w') = inputHandlers (self w)) /\
  (forall handler worker w1 tr1,
     opt_inputHandler options = Some handler ->
     getOrCreateWorker (toLowerCase (language request)) w tr =
       (Resolved worker, w1, tr1) ->
     inputHandlers (self w') =
     JSMap.set (toLowerCase (language request)) handler (inputHandlers (self w))) /\
  (forall message w1 tr1,
     getOrCreateWorker (toLowerCase (language request)) w tr =
       (Rejected message, w1, tr1) ->
     inputHandlers (self w') = inputHandlers (self w)).
Proof.
  intros E.
  destruct (getOrCreateWorker (toLowerCase (language request)) w tr)
    as [[o1 w1] tr1] eqn:G.
  pose proof (getOrCreateWorker_inputHandlers _ _ _ _ _ _ G) as K.
  split; [|split].
  - intros N. destruct o1 as [worker|message|].
    + rewrite (executeWithEvents_self eventHandler _ _ _ _ _ _ _ _ _ _ G E).
      unfold install. now rewrite N.
    + rewrite executeWithEvents_steps, G in E. simpl in E.
      now injection E as _ <- _.
    + rewrite executeWithEvents_steps, G in E. simpl in E.
      now injection E as _ <- _.
  - intros handler worker w2 tr2 S X. injection X as -> -> ->.
    rewrite (executeWithEvents_self eventHandler _ _ _ _ _ _ _ _ _ _ G E).
    unfold install. rewrite S. simpl. now rewrite K.
  - intros message w2 tr2 X. injection X as -> -> ->.
    rewrite executeWithEvents_steps, G in E. simpl in E.
    now injection E as _ <- _.
Qed.

Lemma In_removed (me l : Listener) (ls : list Listener) :
  In l (filter (fun l' => negb (Listener_eqb me l')) ls) <-> In l ls /\ l <> me.
Proof.
  rewrite filter_In.
  assert (E : negb (Listener_eqb me l) = true <-> l <> me).
  { destruct me as [i|i], l as [j|j]; simpl;
      rewrite ?negb_true_iff, ?Nat.eqb_neq; split; congruence. }
  now rewrite E.
Qed.

Lemma worker_eta (obj : WorkerObj) :
  mkWorkerObj (scriptURL obj) (messageListeners obj) (onerror obj)
              (terminated obj) (inbox obj) = obj.
Proof. now destruct obj. Qed.

(** The worker of an execution session, from its start to its end. *)
Lemma awaitExecution_worker {H} (eventHandler : ExecutionEvent -> H -> H)
    worker me :
  forall tr timer acc (w : World H) o w' tr' obj,
    awaitExecution eventHandler worker me timer acc tr w = (o, w', tr') ->
    lookup_worker worker (env w) = Some obj ->
    exists posts,
      lookup_worker worker (env w') =
        Some (mkWorkerObj (scriptURL obj)
                (if cleaned_up o
                 then filter (fun l => negb (Listener_eqb me l)) (messageListeners obj)
                 else messageListeners obj)
                (onerror obj) (terminated obj) (inbox obj ++ posts)) /\
      Forall (fun m => exists value, m = input_response value) posts.
Proof.
  assert (C : forall (w0 : World H) obj,
            lookup_worker worker (env w0) = Some obj ->
            lookup_worker worker (env (cleanup worker me w0)) =
            Some (mkWorkerObj (scriptURL obj)
                    (filter (fun l => negb (Listener_eqb me l)) (messageListeners obj))
                    (onerror obj) (terminated obj) (inbox obj ++ []))).
  { intros w0 obj L. simpl. unfold removeEventListener.
    rewrite lookup_on_worker_eq, L. simpl. now rewrite app_nil_r. }
  induction tr as [|s tr IH]; intros timer acc w o w' tr' obj; simpl.
  - intros E L. injection E as <- <- _. exists []. simpl.
    rewrite app_nil_r, worker_eta. auto.
  - destruct s as [e|fault|d].
    + destruct e; intros E L.
      * exact (IH _ _ _ _ _ _ _ E L).
      * exact (IH _ _ _ _ _ _ _ E L).
      * pose proof (answer_input_posts worker prompt
                      (mkWorld (self w) (env w)
                         (eventHandler (input_request prompt) (caller w))) obj L)
          as L2.
        destruct (IH _ _ _ _ _ _ _ E L2) as (posts & L3 & F).
        simpl in L3. rewrite <- app_assoc in L3.
        eexists. split; [exact L3|].
        constructor; [eexists; reflexivity | exact F].
      * exact (IH _ _ _ _ _ _ _ E L).
      * injection E as <- <- _. exists []. split; [|constructor].
        apply (C (mkWorld (self w) (env w) (eventHandler done (caller w))) obj L).
      * injection E as <- <- _. exists []. split; [|constructor].
        apply (C (mkWorld (self w) (env w)
                    (eventHandler (error data) (caller w))) obj L).
    + intros E L. injection E as <- <- _. exists []. split; [|constructor].
      simpl. apply (C w obj L).
    + destruct timer as [remaining|].
      * destruct (d <? remaining)%N; intros E L.
        -- exact (IH _ _ _ _ _ _ _ E L).
        -- injection E as <- <- _. exists []. simpl.
           rewrite app_nil_r, worker_eta. auto.
      * intros E L. exact (IH _ _ _ _ _ _ _ E L).
Qed.

(** An execution session and its worker, when no listener of an earlier
    call is left on the worker.  The session registers one message
    listener and makes itself the error handler of the worker; it posts
    the code, and after that nothing but answers to input requests; it
    never terminates the worker.  Its listener is removed when the
    session ends by [done], by [error] or by a fault, and is still
    registered, alone, when the timer has fired. *)
Theorem execution_session_and_its_worker {H}
    (eventHandler : ExecutionEvent -> H -> H) (worker : Worker) (code : string)
    (timeout : option N) (w : World H) (tr : list Stimulus)
    (o : Outcome Output) (w' : World H) (tr' : list Stimulus) (obj : WorkerObj) :
  lookup_worker worker (env w) = Some obj ->
  messageListeners obj = [] ->
  executeOnWorker eventHandler worker code timeout w tr = (o, w', tr') ->
  exists obj' posts,
    lookup_worker worker (env w') = Some obj' /\
    scriptURL obj' = scriptURL obj /\
    terminated obj' = terminated obj /\
    onerror obj' = Some (executionHandler (closures (env w))) /\
    inbox obj' = inbox obj ++ run_code code :: posts /\
    Forall (fun m => exists value, m = input_response value) posts /\
    (In (executionHandler (closures (env w))) (messageListeners obj') <->
     cleaned_up o = false) /\
    messageListeners obj' =
      if cleaned_up o then [] else [executionHandler (closures (env w))].
Proof.
  intros L NoOther E. rewrite executeOnWorker_started in E.
  remember (executionHandler (closures (env w))) as me eqn:Hme.
  assert (L1 : lookup_worker worker (env (started worker code w)) =
               Some (mkWorkerObj (scriptURL obj) [me]
                       (Some me) (terminated obj) (inbox obj ++ [run_code code]))).
  { unfold started, postMessage, set_onerror, addEventListener, on_worker,
      lookup_worker in *. simpl.
    rewrite !nth_error_update_nth_eq, L. simpl. rewrite NoOther, Hme.
    reflexivity. }
  destruct (awaitExecution_worker eventHandler worker me _ _ _ _ _ _ _ _ E L1)
    as (posts & L2 & F).
  simpl in L2. rewrite <- app_assoc in L2. simpl in L2.
  assert (Me : Listener_eqb me me = true).
  { rewrite Hme. simpl. apply Nat.eqb_refl. }
  rewrite Me in L2. simpl in L2.
  eexists. exists posts. split; [exact L2|]. simpl.
  repeat (split; [reflexivity|]). split; [exact F|].
  split; [|reflexivity].
  destruct (cleaned_up o); simpl.
  - split; [contradiction | discriminate].
  - split; auto.
Qed.

(** ** Input requests, one by one *)

Lemma answering_handler_answer_input {H} worker prompt (w : World H) :
  answering_handler (answer_input worker prompt w) = answering_handler w.
Proof.
  unfold answer_input.
  destruct (match JSMap.get "python" (inputHandlers (self w)) with
            | Some handler => handler
            | None => defaultInputHandler (env w)
            end prompt); reflexivity.
Qed.

Lemma during_worker {H} (eventHandler : ExecutionEvent -> H -> H) worker :
  forall pre (w : World H) obj,
    lookup_worker worker (env w) = Some obj ->
    lookup_worker worker (env (during eventHandler worker pre w)) =
    Some (mkWorkerObj (scriptURL obj) (messageListeners obj) (onerror obj)
            (terminated obj)
            (inbox obj ++ map (response_of (answering_handler w)) (prompts_of pre))).
Proof.
  induction pre as [|s pre IH]; intros w obj L; simpl.
  - now rewrite app_nil_r, worker_eta.
  - destruct s as [e|fault|d];
      [destruct e as [data|data|prompt| | |data]| |];
      try (match goal with
           | |- context [during _ _ _ ?w0] => exact (IH w0 obj L)
           end).
    pose proof (answer_input_posts worker prompt
                  (forward eventHandler (input_request prompt) w) obj L) as L2.
    rewrite (IH _ _ L2). simpl.
    rewrite answering_handler_answer_input, <- app_assoc. reflexivity.
Qed.

Lemma started_worker {H} worker code (w : World H) obj :
  lookup_worker worker (env w) = Some obj ->
  lookup_worker worker (env (started worker code w)) =
  Some (mkWorkerObj (scriptURL obj)
          (messageListeners obj ++ [executionHandler (closures (env w))])
          (Some (executionHandler (closures (env w)))) (terminated obj)
          (inbox obj ++ [run_code code])).
Proof.
  intros L.
  unfold started, postMessage, set_onerror, addEventListener, on_worker,
    lookup_worker in *. simpl.
  rewrite !nth_error_update_nth_eq, L. reflexivity.
Qed.

(** During an execution that ends with [done], on a worker on which no
    listener of an earlier call is left, the worker is sent the code and
    then one answer for every input request, in the order of the
    requests, and nothing else.  The answers are those of the handler
    registered under "python" (else of the default handler), the empty
    string standing for a failure of the handler.  So the handler passed
    in the options answers when the language is python, and has no
    effect on the answers when it is another language. *)
Theorem input_requests_are_answered_in_order {H}
    (eventHandler : ExecutionEvent -> H -> H) (request : ExecutionRequest)
    (options : ExecutorOptions) (w : World H) (tr : list Stimulus)
    (worker : Worker) (w1 : World H) (pre rest : list Stimulus)
    (obj : WorkerObj) :
  getOrCreateWorker (toLowerCase (language request)) w tr =
    (Resolved worker, w1, pre ++ Message done :: rest) ->
  forallb quiet pre = true ->
  outlasts (start_timer (opt_timeout options)) (elapsed pre) ->
  lookup_worker worker (env w1) = Some obj ->
  messageListeners obj = [] ->
  exists result w',
    executeWithEvents eventHandler request options w tr =
      (Resolved result, w', rest) /\
    option_map inbox (lookup_worker worker (env w')) =
      Some (inbox obj ++
            run_code (code request) ::
            map (response_of
                   (answering_handler
                      (install (toLowerCase (language request)) options w1)))
                (prompts_of pre)) /\
    (toLowerCase (language request) = "python" ->
     forall handler,
       opt_inputHandler options = Some handler ->
       answering_handler (install (toLowerCase (language request)) options w1) =
       handler) /\
    (toLowerCase (language request) <> "python" ->
     answering_handler (install (toLowerCase (language request)) options w1) =
     answering_handler w1).
Proof.
  intros G Q O L _. eexists. eexists. split; [|split; [|split]].
  - exact (executeWithEvents_done eventHandler request options w tr worker w1
             pre rest G Q O).
  - unfold finished, cleanup. simpl. unfold removeEventListener.
    rewrite lookup_on_worker_eq.
    assert (L1 : lookup_worker worker
                   (env (install (toLowerCase (language request)) options w1)) =
                 Some obj).
    { unfold install. now destruct (opt_inputHandler options). }
    change (env (during eventHandler worker pre
                   (started worker (code request)
                      (install (toLowerCase (language request)) options w1))))
      with (env (during eventHandler worker pre
                   (started worker (code request)
                      (install (toLowerCase (language request)) options w1)))).
    rewrite (during_worker eventHandler worker pre _ _
               (started_worker worker (code request) _ obj L1)).
    simpl. now rewrite <- app_assoc.
  - intros P handler S. unfold answering_handler, install. rewrite S, P. simpl.
    now rewrite JSMapFacts.get_set_eq.
  - intros N. unfold answering_handler, install.
    destruct (opt_inputHandler options); [|reflexivity]. simpl.
    rewrite JSMapFacts.get_set_neq by congruence. reflexivity.
Qed.

(** ** [execute] *)

Lemma awaitReady_recast {H H'} (h' : H') worker language me :
  forall tr remaining (w : World H),
    awaitReady worker language me remaining tr (recast h' w) =
    let '(o, w', tr') := awaitReady worker language me remaining tr w in
    (o, recast h' w', tr').
Proof.
  induction tr as [|s tr IH]; intros remaining w; simpl.
  - reflexivity.
  - destruct s as [e|fault|d]; [destruct e| |]; try reflexivity;
      try apply IH.
    destruct (d <? remaining)%N; [|reflexivity].
    apply (IH (remaining - d)%N (tick d w)).
Qed.

(** [getOrCreateWorker] neither reads nor changes what belongs to the
    caller. *)
Lemma getOrCreateWorker_recast {H H'} (h' : H') language (w : World H) tr :
  getOrCreateWorker language (recast h' w) tr =
  let '(o, w', tr') := getOrCreateWorker language w tr in
  (o, recast h' w', tr').
Proof.
  unfold getOrCreateWorker, waitForWorkerReady, bind, gets, on_env, on_self,
    from_env, ret, throw, recast.
  destruct w as [[ws ps rs hs] [p n wp k] hh]; simpl.
  destruct (JSMap.get language ws) as [old|];
    [destruct (JSMap.get language rs) as [[|]|]|]; simpl; try reflexivity;
    (destruct (JSMap.get language ps) as [path|]; [|reflexivity]);
    (destruct (truthy path); [|reflexivity]); simpl;
    match goal with
    | |- context [awaitReady ?a ?b ?c ?d ?e
                    (mkWorld ?s ?r h')] =>
        change (mkWorld s r h') with (recast h' (mkWorld s r hh));
        rewrite (awaitReady_recast h' a b c e d (mkWorld s r hh));
        destruct (awaitReady a b c d e (mkWorld s r hh)) as [[[[]| |] ?] ?];
        reflexivity
    end.
Qed.


Lemma execute_handler_fold :
  forall pre acc,
    forallb quiet pre = true ->
    fold_left (fun h e => execute_handler e h) (messages_of pre) acc =
    mkOutput (out_stdout acc +++ stdout_of pre) (out_stderr acc +++ stderr_of pre)
             (out_success acc).
Proof.
  induction pre as [|s pre IH]; intros acc Q; simpl in *.
  - rewrite !append_empty_r. now destruct acc.
  - apply andb_true_iff in Q as [Q1 Q2].
    destruct s as [e|fault|d]; [destruct e| |]; try discriminate; simpl;
      rewrite IH by assumption; simpl; rewrite ?append_assoc; reflexivity.
Qed.

Lemma executeWithEvents_settles {H} (eventHandler : ExecutionEvent -> H -> H)
    request options (w : World H) tr message w' tr' :
  executeWithEvents eventHandler request options w tr <> (Rejected message, w', tr').
Proof.
  rewrite executeWithEvents_steps.
  destruct (getOrCreateWorker (toLowerCase (language request)) w tr)
    as [[[worker|m|] w1] tr1]; simpl; try discriminate.
  match goal with
  | |- conclude _ _ ?r <> _ => destruct r as [[[out|m|] w2] tr2]
  end; simpl; discriminate.
Qed.

Lemma getOrCreateWorker_for_execute {H} language (w : World H) tr worker w1 tr1 :
  getOrCreateWorker language w tr = (Resolved worker, w1, tr1) ->
  getOrCreateWorker language (recast (mkOutput "" "" false) w) tr =
    (Resolved worker, recast (mkOutput "" "" false) w1, tr1).
Proof. intros G. now rewrite getOrCreateWorker_recast, G. Qed.

Lemma executeWithEvents_fault {H} (eventHandler : ExecutionEvent -> H -> H)
    request options (w : World H) tr worker w1 pre fault rest :
  getOrCreateWorker (toLowerCase (language request)) w tr =
    (Resolved worker, w1, pre ++ Fault fault :: rest) ->
  forallb quiet pre = true ->
  outlasts (start_timer (opt_timeout options)) (elapsed pre) ->
  executeWithEvents eventHandler request options w tr =
  (Resolved (mkResult ""
               ("Execution failed: " +++ "Worker error during execution: " +++ fault)
               false (Some (clock (env w1) + elapsed pre - clock (env w))%N)),
   forward eventHandler (error ("Worker error during execution: " +++ fault))
     (cleanup worker
        (executionHandler
           (closures (env (install (toLowerCase (language request)) options w1))))
        (during eventHandler worker pre
           (started worker (code request)
              (install (toLowerCase (language request)) options w1)))),
   rest).
Proof.
  intros E Q O.
  rewrite executeWithEvents_steps, E, executeOnWorker_started.
  rewrite awaitExecution_quiet by assumption. simpl.
  rewrite during_clock. simpl.
  unfold install. now destruct (opt_inputHandler options).
Qed.

(** [execute] never rejects, and it never times out: it passes no
    options, so no timer is started, whatever timeout the request
    carries.  As long as the worker, once obtained, posts no terminal
    event and no fault occurs, the call is pending. *)
Theorem execute_never_rejects_nor_times_out {H} (request : ExecutionRequest)
    (w : World H) (tr : list Stimulus) :
  (forall message w' tr', execute request w tr <> (Rejected message, w', tr')) /\
  (forall worker w1 tr1,
     getOrCreateWorker (toLowerCase (language request)) w tr =
       (Resolved worker, w1, tr1) ->
     forallb quiet tr1 = true ->
     exists w', execute request w tr = (Pending, w', [])).
Proof.
  split.
  - intros message w' tr' E.
    destruct (execute_worlds _ _ _ _ _ _ E) as (o2 & w2 & E2 & _).
    unfold execute in E. fold (recast (mkOutput "" "" false) w) in E.
    rewrite E2 in E. destruct o2; try discriminate.
    now apply executeWithEvents_settles in E2.
  - intros worker w1 tr1 G Q.
    pose proof (getOrCreateWorker_for_execute _ _ _ _ _ _ G) as G'.
    unfold execute. fold (recast (mkOutput "" "" false) w).
    rewrite executeWithEvents_steps, G', executeOnWorker_started.
    rewrite awaitExecution_pending by (assumption || exact I). simpl.
    eexists. reflexivity.
Qed.


(** When the runtime reports a fault of the worker during an execution,
    [executeWithEvents] returns an empty stdout, whatever the worker had
    written, whereas [execute] returns what the worker had written to
    stdout until then; both report the fault in stderr, and what had been
    written to stderr is in neither. *)
Theorem fault_drops_output_except_stdout_of_execute {H}
    (eventHandler : ExecutionEvent -> H -> H) (request : ExecutionRequest)
    (options : ExecutorOptions) (w : World H) (tr : list Stimulus)
    (worker : Worker) (w1 : World H) (pre rest : list Stimulus) (fault : string) :
  getOrCreateWorker (toLowerCase (language request)) w tr =
    (Resolved worker, w1, pre ++ Fault fault :: rest) ->
  forallb quiet pre = true ->
  outlasts (start_timer (opt_timeout options)) (elapsed pre) ->
  (exists w',
     executeWithEvents eventHandler request options w tr =
     (Resolved (mkResult ""
                  ("Execution failed: " +++ "Worker error during execution: "
                                        +++ fault)
                  false (Some (clock (env w1) + elapsed pre - clock (env w))%N)),
      w', rest)) /\
  (exists w',
     execute request w tr =
     (Resolved (mkResult (stdout_of pre)
                  ("Execution failed: " +++ "Worker error during execution: "
                                        +++ fault)
                  false (Some (clock (env w1) + elapsed pre - clock (env w))%N)),
      w', rest)).
Proof.
  intros G Q O. split.
  - eexists. exact (executeWithEvents_fault eventHandler request options w tr
                      worker w1 pre fault rest G Q O).
  - pose proof (getOrCreateWorker_for_execute _ _ _ _ _ _ G) as G'.
    unfold execute. fold (recast (mkOutput "" "" false) w).
    rewrite (executeWithEvents_fault execute_handler request no_options _ tr worker
               _ pre fault rest G' Q I).
    simpl. rewrite during_caller, execute_handler_fold by assumption.
    simpl. eexists. reflexivity.
Qed.

(** ** Who answers an input request *)

Lemma terminate_all_window (l : JSMap.t Worker) rt :
  windowPrompt (fold_left (fun rt entry => worker_terminate (snd entry) rt) l rt) =
  windowPrompt rt.
Proof.
  revert rt. induction l as [|[k wk] l IH]; simpl; intros rt; [reflexivity|].
  now rewrite IH.
Qed.

(** [setInputHandler] decides who answers later input requests only when
    its language is python, in any letter case: then the new handler
    answers, whatever was registered before.  For another language the
    answers are as before.  With no handler under python the answer is
    what [window.prompt] returns, or the empty string when it returns
    null or when there is no window; this is also so after
    [terminate()], which forgets the handlers. *)
Theorem who_answers_input_requests {H} (language : string)
    (handler : InputHandler) (w : World H) (prompt : string) :
  (equal_ignoring_case language "python" ->
   answering_handler (in_self (setInputHandler language handler) w) = handler) /\
  (~ equal_ignoring_case language "python" ->
   answering_handler (in_self (setInputHandler language handler) w) =
   answering_handler w) /\
  (JSMap.get "python" (inputHandlers (self w)) = None ->
   response_of (answering_handler w) prompt =
   input_response match windowPrompt (env w) with
                  | Some window_prompt =>
                      match window_prompt prompt with
                      | Some value => value
                      | None => ""
                      end
                  | None => ""
                  end) /\
  response_of (answering_handler (terminate w)) prompt =
  input_response match windowPrompt (env w) with
                 | Some window_prompt =>
                     match window_prompt prompt with
                     | Some value => value
                     | None => ""
                     end
                 | None => ""
                 end.
Proof.
  assert (D : forall rt,
            response_of (defaultInputHandler rt) prompt =
            input_response match windowPrompt rt with
                           | Some window_prompt =>
                               match window_prompt prompt with
                               | Some value => value
                               | None => ""
                               end
                           | None => ""
                           end).
  { intros rt. unfold response_of, defaultInputHandler.
    destruct (windowPrompt rt) as [p|]; [|reflexivity].
    destruct (p prompt) as [v|]; [|reflexivity].
    unfold or_else. now destruct v. }
  split; [|split; [|split]].
  - intros E. apply toLowerCase_ignores_case in E.
    unfold answering_handler. simpl. rewrite E. simpl.
    now rewrite JSMapFacts.get_set_eq.
  - intros N. unfold answering_handler. simpl.
    rewrite JSMapFacts.get_set_neq; [reflexivity|].
    intros E. apply N. apply toLowerCase_ignores_case. now rewrite <- E.
  - intros G. unfold answering_handler. rewrite G. apply D.
  - unfold answering_handler. simpl. rewrite D. simpl.
    now rewrite terminate_all_window.
Qed.

(** ** The further theorems at concrete inputs *)

Lemma fresh_world_no_orphans : no_orphans fresh_world.
Proof. intros [|worker] obj L; discriminate. Qed.

Lemma empty_path_is_supported_but_not_executable_witness :
  isLanguageSupported "Python" (registerExecutor "Python" "" constructor) = true /\
  fst (fst (executeWithEvents record_event print_a_b no_options
              (in_self (registerExecutor "Python" "") fresh_world) [])) =
  Resolved (mkResult "" "Execution failed: No executor found for language: python"
                     false (Some 0%N)).
Proof.
  destruct (empty_path_is_supported_but_not_executable record_event print_a_b
              no_options fresh_world [] eq_refl) as [A B].
  split; [exact A | exact (f_equal (fun r => fst (fst r)) B)].
Defined.

Lemma termination_forces_construction_witness :
  JSMap.get "python"
    (workers (self (snd (fst
       (getOrCreateWorker "python"
          (terminate (constructed "python" python_path hs_ready fresh_world))
          [Message ready]))))) = Some 1.
Proof.
  destruct (termination_forces_construction "Python" python_path
              (constructed "python" python_path hs_ready fresh_world)
              [Message ready] eq_refl eq_refl) as [A _].
  destruct (getOrCreateWorker "python"
              (terminate (constructed "python" python_path hs_ready fresh_world))
              [Message ready]) as [[o w'] tr'] eqn:E.
  apply (A o w' tr' E).
Defined.

Lemma session_stays_ready_after_execution_witness :
  fst (fst (getOrCreateWorker "python"
              (snd (fst (executeWithEvents record_event print_a_b
                           (mkOptions (Some 5%N) None) fresh_world
                           [Message ready; Elapse 5]))) [])) = Resolved 0.
Proof.
  destruct (executeWithEvents record_event print_a_b (mkOptions (Some 5%N) None)
              fresh_world [Message ready; Elapse 5]) as [[o w'] tr'] eqn:E.
  exact (f_equal (fun r => fst (fst r))
           (session_stays_ready_after_execution record_event print_a_b
              (mkOptions (Some 5%N) None) fresh_world [Message ready; Elapse 5]
              0 (constructed "python" python_path hs_ready fresh_world)
              [Elapse 5] o w' tr' eq_refl E [])).
Defined.

Lemma no_worker_is_orphaned_witness :
  no_orphans (snd (fst (executeWithEvents record_event print_a_b no_options
                          fresh_world [Message (error "no pyodide")]))).
Proof.
  destruct (no_worker_is_orphaned fresh_world fresh_world_no_orphans)
    as (_ & _ & _ & _ & A & _).
  destruct (executeWithEvents record_event print_a_b no_options fresh_world
              [Message (error "no pyodide")]) as [[o w'] tr'] eqn:E.
  exact (A record_event print_a_b no_options _ o w' tr' E).
Defined.

Lemma terminate_stops_every_worker_witness :
  ~ is_live 0 (env (terminate (constructed "python" python_path hs_ready fresh_world))).
Proof.
  destruct (terminate_stops_every_worker
              (constructed "python" python_path hs_ready fresh_world)) as [A _].
  - apply (getOrCreateWorker_no_orphans "python" fresh_world [Message ready]
             _ _ _ eq_refl fresh_world_no_orphans).
  - apply A.
Defined.

Lemma well_formedness_is_kept_witness :
  well_formed (in_self (registerExecutor "Rust" "./rust.js") fresh_world).
Proof.
  destruct (well_formedness_is_kept fresh_world
              (Invariant.holds_initially fresh_runtime [])) as [A _].
  now apply A.
Defined.

Lemma handshake_ignores_other_messages_witness :
  exists w',
    getOrCreateWorker "python" fresh_world
      [Message (stdout "loading"); Elapse 1200; Message ready] =
      (Resolved 0, w', []) /\
    caller w' = [] /\ clock (env w') = 1200%N.
Proof.
  destruct (handshake_ignores_other_messages "python" python_path fresh_world
              [Message (stdout "loading"); Elapse 1200] []
              eq_refl eq_refl eq_refl eq_refl eq_refl)
    as (w' & A & B & C & _).
  exists w'. split; [exact A|]. split; [exact B | exact C].
Defined.

Lemma handshake_times_out_after_30_seconds_witness :
  fst (fst (executeWithEvents record_event print_a_b no_options fresh_world
              [Message (stdout "loading"); Elapse 45000])) =
  Resolved (mkResult ""
              "Execution failed: Worker for python failed to initialize within timeout"
              false (Some 30000%N)).
Proof.
  destruct (handshake_times_out_after_30_seconds record_event print_a_b no_options
              python_path fresh_world [Message (stdout "loading"); Elapse 45000]
              eq_refl eq_refl eq_refl eq_refl)
    as (w1 & tr1 & _ & _ & E).
  - vm_compute. discriminate.
  - exact (f_equal (fun r => fst (fst r)) E).
Defined.

Lemma first_execution_includes_the_handshake_witness :
  exists w',
    executeWithEvents record_event print_a_b (mkOptions (Some 100%N) None)
      fresh_world
      [Message (stdout "loading"); Elapse 1200; Message ready;
       Message (stdout "a"); Elapse 30; Message (stdout "b"); Message done] =
      (Resolved (mkResult "ab" "" true (Some 1230%N)), w', []) /\
    caller w' = [stdout "a"; stdout "b"; done].
Proof.
  exact (first_execution_includes_the_handshake record_event print_a_b
           (mkOptions (Some 100%N) None) python_path fresh_world
           [Message (stdout "loading"); Elapse 1200]
           [Message (stdout "a"); Elapse 30; Message (stdout "b")] []
           eq_refl eq_refl eq_refl eq_refl eq_refl eq_refl eq_refl).
Defined.

Lemma options_inputHandler_outlives_the_call_witness :
  inputHandlers
    (self (snd (fst (executeWithEvents record_event print_a_b
                       (mkOptions None (Some alice)) fresh_world
                       [Message ready; Message done])))) = [("python", alice)].
Proof.
  destruct (executeWithEvents record_event print_a_b (mkOptions None (Some alice))
              fresh_world [Message ready; Message done]) as [[o w'] tr'] eqn:E.
  destruct (options_inputHandler_outlives_the_call record_event print_a_b
              (mkOptions None (Some alice)) fresh_world
              [Message ready; Message done] o w' tr' E) as (_ & A & _).
  apply (A alice 0 (constructed "python" python_path hs_ready fresh_world)
           [Message done] eq_refl eq_refl).
Defined.

Lemma execution_session_and_its_worker_witness :
  exists obj',
    lookup_worker 0
      (env (snd (fst (executeOnWorker record_event 0 "print(1)" (Some 5%N)
                        (constructed "python" python_path hs_ready fresh_world)
                        [Message (stdout "1"); Elapse 5])))) = Some obj' /\
    terminated obj' = false /\
    inbox obj' = [run_code "print(1)"].
Proof.
  destruct (executeOnWorker record_event 0 "print(1)" (Some 5%N)
              (constructed "python" python_path hs_ready fresh_world)
              [Message (stdout "1"); Elapse 5]) as [[o w'] tr'] eqn:E.
  destruct (execution_session_and_its_worker record_event 0 "print(1)" (Some 5%N)
              (constructed "python" python_path hs_ready fresh_world)
              [Message (stdout "1"); Elapse 5] o w' tr'
              (mkWorkerObj python_path [] (Some (handshakeHandler 0)) false [])
              eq_refl eq_refl E)
    as (obj' & posts & A & _ & B & _ & C & F & _).
  exists obj'. split; [exact A|]. split; [exact B|].
  rewrite C. simpl. f_equal.
  injection E as _ <- _. simpl in A. injection A as <-. simpl in C.
  now injection C as <-.
Defined.

Lemma input_requests_are_answered_in_order_witness :
  exists result w',
    executeWithEvents record_event (mkRequest "name = input('name?')" "Python" None)
      (mkOptions None (Some alice)) fresh_world
      [Message ready; Message (input_request "name?"); Message done] =
      (Resolved result, w', []) /\
    option_map inbox (lookup_worker 0 (env w')) =
      Some [run_code "name = input('name?')"; input_response "Alice"].
Proof.
  destruct (input_requests_are_answered_in_order record_event
              (mkRequest "name = input('name?')" "Python" None)
              (mkOptions None (Some alice)) fresh_world
              [Message ready; Message (input_request "name?"); Message done]
              0 (constructed "python" python_path hs_ready fresh_world)
              [Message (input_request "name?")] []
              (mkWorkerObj python_path [] (Some (handshakeHandler 0)) false [])
              eq_refl eq_refl I eq_refl eq_refl)
    as (result & w' & A & B & _).
  exists result, w'. split; [exact A | exact B].
Defined.


Lemma fault_drops_output_except_stdout_of_execute_witness :
  (exists w',
     executeWithEvents record_event print_a_b no_options fresh_world
       [Message ready; Message (stdout "partial"); Message (stderr "warning");
        Fault "out of memory"] =
     (Resolved (mkResult ""
                  "Execution failed: Worker error during execution: out of memory"
                  false (Some 0%N)), w', [])) /\
  (exists w',
     execute print_a_b fresh_world
       [Message ready; Message (stdout "partial"); Message (stderr "warning");
        Fault "out of memory"] =
     (Resolved (mkResult "partial"
                  "Execution failed: Worker error during execution: out of memory"
                  false (Some 0%N)), w', [])).
Proof.
  exact (fault_drops_output_except_stdout_of_execute record_event print_a_b
           no_options fresh_world
           [Message ready; Message (stdout "partial"); Message (stderr "warning");
            Fault "out of memory"]
           0 (constructed "python" python_path hs_ready fresh_world)
           [Message (stdout "partial"); Message (stderr "warning")] []
           "out of memory" eq_refl eq_refl I).
Defined.

(** ** A language has at most one session *)

Lemma NoDup_keys_set {V} (k : string) (v : V) (m : JSMap.t V) :
  NoDup (JSMap.keys m) -> NoDup (JSMap.keys (JSMap.set k v m)).
Proof.
  intros D. rewrite JSMapMore.keys_set. unfold JSMap.has.
  destruct (JSMap.get k m) eqn:G; [exact D|].
  apply NoDup_app; [exact D | repeat constructor; intros [] |].
  intros x I [<-|[]]. now apply JSMapMore.get_None_not_key in G.
Qed.

Lemma NoDup_keys_delete {V} (k : string) (m : JSMap.t V) :
  NoDup (JSMap.keys m) -> NoDup (JSMap.keys (JSMap.delete k m)).
Proof.
  induction m as [|[k2 v2] m IH]; simpl; intros D; [constructor|].
  inversion D as [|? ? N D']; subst.
  destruct (String.eqb k k2); [exact D'|]. simpl. constructor; [|now apply IH].
  intros I. apply N. unfold JSMap.keys in *.
  apply in_map_iff in I. destruct I as ([k3 v3] & <- & I).
  apply JSMapFacts.In_delete in I.
  exact (in_map fst _ _ I).
Qed.

(** The session map never holds a language twice: the methods that write
    to it keep its keys distinct. *)
Lemma sessions_stay_distinct {H} (w : World H) :
  NoDup (JSMap.keys (workers (self w))) ->
  (forall language,
     NoDup (JSMap.keys (workers (self (terminateLanguageWorker language w))))) /\
  (forall language tr o w' tr',
     getOrCreateWorker language w tr = (o, w', tr') ->
     NoDup (JSMap.keys (workers (self w')))) /\
  (forall (eventHandler : ExecutionEvent -> H -> H) request options tr o w' tr',
     executeWithEvents eventHandler request options w tr = (o, w', tr') ->
     NoDup (JSMap.keys (workers (self w')))).
Proof.
  intros D.
  assert (G : forall language tr o w' tr',
            getOrCreateWorker language w tr = (o, w', tr') ->
            NoDup (JSMap.keys (workers (self w')))).
  { intros language tr o w' tr' E.
    destruct (session_ready language (self w)) eqn:S.
    - unfold session_ready in S.
      destruct (JSMap.get language (workers (self w))) as [wk|] eqn:Gw;
        [|discriminate].
      destruct (JSMap.get language (workerReady (self w))) as [[|]|] eqn:R;
        try discriminate.
      rewrite (getOrCreateWorker_reuse language w tr wk Gw R) in E.
      now injection E as _ <- _.
    - destruct (JSMap.get language (workerPaths (self w))) as [path|] eqn:P;
        [destruct (truthy path) eqn:T|].
      + destruct (getOrCreateWorker_constructs language path w tr S P T)
          as (h & t & tr2 & E2 & _).
        rewrite E in E2. injection E2 as _ -> _. simpl.
        rewrite retire_self. now apply NoDup_keys_set.
      + rewrite getOrCreateWorker_no_executor in E by (auto; now rewrite P).
        injection E as _ <- _. now rewrite retire_self.
      + rewrite getOrCreateWorker_no_executor in E by (auto; now rewrite P).
        injection E as _ <- _. now rewrite retire_self. }
  split; [|split].
  - intros language. unfold terminateLanguageWorker.
    destruct (JSMap.get (toLowerCase language) (workers (self w)));
      simpl; [now apply NoDup_keys_delete | exact D].
  - exact G.
  - intros eventHandler request options tr o w' tr' E.
    destruct (executeWithEvents_liveness _ _ _ _ _ _ _ _ E)
      as (o1 & w1 & tr1 & G1 & [S _]).
    rewrite S. exact (G _ _ _ _ _ G1).
Qed.
